(** * Range-driven aggregation with hover fallback in the IEX notebooks

    A shallow embedding of the code cells of the two IEX notebooks
    (IEX_trading: one raster of all trades with a hover layer; IEX_stocks:
    one raster and one hover layer per selected stock symbol) and of the
    canvas configuration of the OSM notebook.

    The dataframe is a list of rows in file order.  Timestamps are integer
    nanoseconds, sizes are integers, prices are integers in the fixed-point
    unit of the exchange feed.  The HoloViews calls the notebooks make on a
    [Spikes] element (select by symbol, slice on the key dimension, [iloc],
    [len], [opts]) are modelled on that list in module [HoloViews], streams
    are objects in a store and are held by reference.  The rasterizing
    operation [spikes_aggregate] is a library call: the notebook code is
    embedded over an arbitrary one (a section variable), and module
    [Aggregator] gives the aggregation contract of the specification.

    Module [IEX_stocks] has the cells of the notebook where every library
    call returns.  Two calls of the notebook can raise: [select] for a
    symbol without a row, and [collate] on an overlay without items.
    Module [Live] has the same cells with these exceptions, and the served
    dashboard as it reacts to them. *)

From Stdlib Require Import ZArith QArith List String Bool Lia Sorted.
From Stdlib Require Import Permutation OrderedTypeEx.
Import ListNotations.
Local Close Scope Q_scope.
Local Open Scope string_scope.
Local Open Scope Z_scope.

(** ** Data model *)

(** One row of the dataframe read from the CSV file: the key dimension
    [timestamp] and the value dimensions [symbol], [size] and [price]. *)
Record Trade : Type := mkTrade {
  timestamp : Z;
  symbol : string;
  size : Z;
  price : Z
}.

(** A Bokeh hover tool: its tooltips and its formatters. *)
Record HoverTool : Type := mkHoverTool {
  tooltips : list (string * string);
  formatters : list (string * string)
}.

(** The plot options the notebooks set on a [Spikes] element. *)
Record Options : Type := mkOptions {
  spike_length : option Z;
  alpha : option Z;
  tools : list HoverTool;
  position : option nat
}.

(** An [hv.Spikes] element: its rows and its options. *)
Record Spikes : Type := mkSpikes {
  data : list Trade;
  options : Options
}.

(** The contents of a [RangeX] stream: [None] until the plot reports a
    range, then a pair of bounds, each of which may itself be [None]. *)
Definition XRange : Type := option (option Z * option Z).

(** A [RangeX] stream object. *)
Record RangeX : Type := mkRangeX {
  source : option Spikes;
  x_range : XRange
}.

(** The datashader reductions the notebooks pass as [aggregator]. *)
Inductive Reduction : Type :=
| ds_count
| ds_sum (column : string).

(** A [DynamicMap] driven by one stream: the stream it subscribes to, held
    by reference, and the callback that receives the stream contents. *)
Record DynamicMap (A : Type) : Type := mkDynamicMap {
  dm_stream : nat;
  dm_callback : XRange -> A
}.
Arguments mkDynamicMap {A} _ _.
Arguments dm_stream {A} _.
Arguments dm_callback {A} _ _.

(** The state a notebook session mutates: the global [spikes] element and
    the stream objects created so far, addressed by their position. *)
Record Globals : Type := mkGlobals {
  spikes : Spikes;
  streams : list RangeX
}.

(** Notebook code that reads and writes the session state. *)
Definition Notebook (A : Type) : Type := Globals -> A * Globals.

Definition ret {A : Type} (a : A) : Notebook A := fun g => (a, g).

Definition bind {A B : Type} (m : Notebook A) (k : A -> Notebook B)
  : Notebook B :=
  fun g => let '(a, g') := m g in k a g'.

Notation "x <- m ;; k" := (bind m (fun x => k))
  (at level 61, m at next level, right associativity).
Notation "m ;;; k" := (bind m (fun _ => k))
  (at level 61, right associativity).

(** Notebook code that may raise: the result is [None] for an exception,
    and the session is the one the code had reached when it was raised. *)
Definition Raising (A : Type) : Type := Globals -> option A * Globals.

Definition returned {A : Type} (a : A) : Raising A := fun g => (Some a, g).

Definition bind_raising {A B : Type} (m : Raising A) (k : A -> Raising B)
  : Raising B :=
  fun g =>
    match m g with
    | (Some a, g') => k a g'
    | (None, g') => (None, g')
    end.

(** Code that does not raise. *)
Definition lift {A : Type} (m : Notebook A) : Raising A :=
  fun g => let '(a, g') := m g in (Some a, g').

(** A call that returns or raises and leaves the session as it is. *)
Definition of_option {A : Type} (o : option A) : Raising A :=
  fun g => (o, g).

Notation "x <~ m ;; k" := (bind_raising m (fun x => k))
  (at level 61, m at next level, right associativity).
Notation "m ;;~ k" := (bind_raising m (fun _ => k))
  (at level 61, right associativity).

Module HoloViews.

Definition no_options : Options := mkOptions None None [] None.

(** [hv.Spikes(df, ['timestamp'], ['symbol', 'size', 'price'])] *)
Definition Spikes_of (df : list Trade) : Spikes := mkSpikes df no_options.

(** [len(element)] *)
Definition len (s : Spikes) : nat := List.length (data s).

(** The element [element.select(symbol=sym)] returns: the rows whose
    symbol equals [sym], in their original order.  The call returns when
    some row has the symbol, see [select_or_raise]. *)
Definition select (s : Spikes) (sym : string) : Spikes :=
  mkSpikes (filter (fun e => String.eqb (symbol e) sym) (data s)) (options s).

(** Some row of the element has the symbol. *)
Definition has_symbol (s : Spikes) (sym : string) : bool :=
  existsb (fun e => String.eqb (symbol e) sym) (data s).

(** [element.select(symbol=sym)] as the library runs it: the call raises a
    [TypeError] when no row has the symbol, and returns the element of
    [select] otherwise. *)
Definition select_or_raise (s : Spikes) (sym : string) : option Spikes :=
  if has_symbol s sym then Some (select s sym) else None.

(** The row mask of a slice on the key dimension: a present lower bound is
    inclusive, a present upper bound is exclusive, an absent bound does not
    constrain. *)
Definition in_slice (low high : option Z) (t : Z) : bool :=
  match low with None => true | Some l => l <=? t end &&
  match high with None => true | Some h => t <? h end.

(** [element[low:high]] *)
Definition getitem (s : Spikes) (low high : option Z) : Spikes :=
  mkSpikes (filter (fun e => in_slice low high (timestamp e)) (data s))
           (options s).

(** [element.iloc[:stop]] *)
Definition iloc_to (s : Spikes) (stop : nat) : Spikes :=
  mkSpikes (firstn stop (data s)) (options s).

(** [element.opts(spike_length=l, alpha=a)] *)
Definition opts_spike (s : Spikes) (l a : Z) : Spikes :=
  mkSpikes (data s)
           (mkOptions (Some l) (Some a) (tools (options s))
                      (position (options s))).

(** [element.opts(tools=ts)] *)
Definition opts_tools (s : Spikes) (ts : list HoverTool) : Spikes :=
  mkSpikes (data s)
           (mkOptions (spike_length (options s)) (alpha (options s)) ts
                      (position (options s))).

(** [element.opts(position=p)] *)
Definition opts_position (s : Spikes) (p : nat) : Spikes :=
  mkSpikes (data s)
           (mkOptions (spike_length (options s)) (alpha (options s))
                      (tools (options s)) (Some p)).

(** [element.apply(callback, streams=[stream])] *)
Definition apply (s : Spikes) (callback : Spikes -> XRange -> Spikes)
    (stream : nat) : DynamicMap Spikes :=
  mkDynamicMap stream (callback s).

(** [dmap.opts(...)]: the options are applied to every element the
    callback returns. *)
Definition dmap_opts (d : DynamicMap Spikes) (f : Spikes -> Spikes)
  : DynamicMap Spikes :=
  mkDynamicMap (dm_stream d) (fun xr => f (dm_callback d xr)).

(** A stream that was never created reads as an unset one. *)
Definition unset : RangeX := mkRangeX None None.

Definition deref (g : Globals) (r : nat) : RangeX := nth r (streams g) unset.

Fixpoint assign (h : list RangeX) (r : nat) (v : RangeX) : list RangeX :=
  match h, r with
  | [], _ => []
  | _ :: t, O => v :: t
  | x :: t, S r' => x :: assign t r' v
  end.

(** [stream.source = s]: the range the stream holds is left as it is. *)
Definition set_source (r : nat) (s : Spikes) : Notebook unit :=
  fun g => (tt, mkGlobals (spikes g)
                  (assign (streams g) r
                     (mkRangeX (Some s) (x_range (deref g r))))).

(** The plot reports a new range to a stream. *)
Definition set_x_range (r : nat) (xr : XRange) (g : Globals) : Globals :=
  mkGlobals (spikes g)
    (assign (streams g) r (mkRangeX (source (deref g r)) xr)).

(** The global [spikes]. *)
Definition the_spikes : Notebook Spikes := fun g => (spikes g, g).

(** What a [DynamicMap] shows in a session state: its callback on the
    current contents of its own stream. *)
Definition render {A : Type} (g : Globals) (d : DynamicMap A) : A :=
  dm_callback d (x_range (deref g (dm_stream d))).

End HoloViews.

Import HoloViews.

(** Python's [enumerate], counting from [start]. *)
Definition enumerate_from {A : Type} (start : nat) (l : list A)
  : list (nat * A) :=
  combine (seq start (List.length l)) l.

Definition enumerate {A : Type} (l : list A) : list (nat * A) :=
  enumerate_from 0 l.

(** The hover tool both notebooks declare. *)
Definition hover : HoverTool :=
  mkHoverTool
    [("Symbol", "@symbol"); ("Size", "@size"); ("Price", "@price");
     ("Timestamp", "@timestamp{%F %H:%M %Ss %3Nms}")]
    [("timestamp", "datetime")].

(** [df.timestamp -= datetime.timedelta(hours=4)] on nanosecond stamps:
    the column after the cell, where the cell returns; [load_df] says
    where it does. *)
Definition to_exchange_time (df : list Trade) : list Trade :=
  map (fun e => mkTrade (timestamp e - 4 * 3600 * 1000000000) (symbol e)
                        (size e) (price e)) df.

(** A UTC stamp that the cell carries to exchange time: a [datetime64[ns]]
    value is an int64 number of nanoseconds whose least value reads as
    [NaT], and the subtraction of the four hours is checked, so the stamp
    is an int64 and the stamp four hours earlier is an int64 above the
    least one. *)
Definition stamp_carried (t : Z) : bool :=
  (- 2 ^ 63 + 4 * 3600 * 1000000000 <? t) && (t <? 2 ^ 63).

(** The cell that loads the dataframe and moves it to exchange time, as
    pandas runs it: [None] where a stamp is not carried, the cell then
    raising or leaving a [NaT] in the column. *)
Definition load_df (df : list Trade) : option (list Trade) :=
  if forallb (fun e => stamp_carried (timestamp e)) df
  then Some (to_exchange_time df)
  else None.

(** The two bounds a callback unpacks from the stream contents:
    [low, high = (None, None) if x_range is None else x_range]. *)
Definition unpack (x_range : XRange) : option Z * option Z :=
  match x_range with
  | None => (None, None)
  | Some r => r
  end.

(** The rows of [spikes] that the slice of [xrange_filter] keeps. *)
Definition ranged_of (spikes : Spikes) (x_range : XRange) : Spikes :=
  let '(low, high) := unpack x_range in getitem spikes low high.

(** The hover filter with its cut-off as a parameter; the two notebooks use
    it at 600 and at 200. *)
Definition xrange_filter_at (threshold : nat) (spikes : Spikes)
    (x_range : XRange) : Spikes :=
  let ranged := ranged_of spikes x_range in
  opts_spike (if Nat.ltb (len ranged) threshold then ranged
              else iloc_to ranged 0) 1 0.

(** One raster layer and one hover layer laid over each other:
    [rasterized * filtered]. *)
Record Overlay (Image : Type) : Type := mkOverlay {
  raster : DynamicMap Image;
  hover_layer : DynamicMap Spikes
}.
Arguments mkOverlay {Image} _ _.
Arguments raster {Image} _.
Arguments hover_layer {Image} _.

(** What an overlay shows in a session state: the image and the hover
    spikes, each from its own layer. *)
Definition render_overlay {Image : Type} (g : Globals) (o : Overlay Image)
  : Image * Spikes :=
  (render g (raster o), render g (hover_layer o)).

(** ** IEX_trading: all trades, hover below 600 spikes *)
Module IEX_trading.

Definition xrange_filter (spikes : Spikes) (x_range : XRange) : Spikes :=
  let '(low, high) :=
    match x_range with None => (None, None) | Some r => r end in
  let ranged := getitem spikes low high in
  opts_spike (if Nat.ltb (len ranged) 600 then ranged else iloc_to ranged 0)
             1 0.

End IEX_trading.

(** ** IEX_stocks: per-symbol views, hover below 200 spikes *)
Module IEX_stocks.

(** [range_stream = hv.streams.RangeX()] is the first stream the notebook
    creates. *)
Definition range_stream : nat := 0%nat.

(** The session after the cells that load the data and declare [spikes]
    and [range_stream]. *)
Definition startup (df : list Trade) : Globals :=
  mkGlobals (Spikes_of (to_exchange_time df)) [mkRangeX None None].

Definition xrange_filter (spikes : Spikes) (x_range : XRange) : Spikes :=
  let '(low, high) :=
    match x_range with None => (None, None) | Some r => r end in
  let ranged := getitem spikes low high in
  opts_spike (if Nat.ltb (len ranged) 200 then ranged else iloc_to ranged 0)
             1 0.

(** The default value of [cross_selector]. *)
Definition cross_selector_value : list string := ["PINS"; "CHK"].

(** The collated overlay with its tick labels. *)
Record Collated (Image : Type) : Type := mkCollated {
  items : list (Overlay Image);
  yticks : list (Q * string)
}.
Arguments mkCollated {Image} _ _.
Arguments items {Image} _.
Arguments yticks {Image} _.

Section WithRasterizer.

Variable Image : Type.
(** [spikes_aggregate(element, streams=[range_stream], offset=..,
    expand=False, aggregator=.., spike_length=1)] at the range the stream
    holds.  The [.opts(raster_opts)] that follows the call styles the image
    (size, colour map, tools) and leaves the aggregate as it is, so the
    raster layer is the aggregate. *)
Variable spikes_aggregate : Spikes -> XRange -> nat -> Reduction -> Image.

(** The cell where [select] returns, that is for a symbol with a row in
    [spikes]; [Live.visualize_symbol] has the call that raises. *)
Definition visualize_symbol (symbol : string) (offset : nat)
  : Notebook (Overlay Image) :=
  spikes <- the_spikes ;;
  let selection := select spikes symbol in
  set_source range_stream selection ;;;
  let rasterized :=
    mkDynamicMap range_stream
      (fun xr => spikes_aggregate selection xr offset (ds_sum "size")) in
  let filtered := apply selection xrange_filter range_stream in
  ret (mkOverlay rasterized
         (dmap_opts filtered
            (fun s => opts_position (opts_tools s [hover]) offset))).

(** The loop [for offset, symbol in enumerate(symbols)] from [offset] on. *)
Fixpoint visualize_from (offset : nat) (symbols : list string)
  : Notebook (list (Overlay Image)) :=
  match symbols with
  | [] => ret []
  | symbol :: rest =>
      item <- visualize_symbol symbol offset ;;
      more <- visualize_from (S offset) rest ;;
      ret (item :: more)
  end.

(** The cell where every [visualize_symbol] and [collate] return;
    [Live.overlay_symbols] has the calls that raise. *)
Definition overlay_symbols (symbols : list string)
  : Notebook (Collated Image) :=
  items <- visualize_from 0 symbols ;;
  let yticks :=
    map (fun '(i, sym) => (Qplus (inject_Z (Z.of_nat i)) (1 # 2), sym))
        (enumerate symbols) in
  ret (mkCollated items yticks).

Definition visualize_symbols (symbols : list string)
  : Notebook (Collated Image) :=
  overlay_symbols symbols.

(** The served dashboard: the session state, the value of the selector
    and the overlay panel currently shows for it. *)
Record Dashboard : Type := mkDashboard {
  globals : Globals;
  value : list string;
  shown : Collated Image
}.

(** What reaches the dashboard from the browser: the plot reports a new
    x-range to [range_stream], or the selector gets a new value. *)
Inductive Event : Type :=
| RangeChange (r : option Z * option Z)
| SelectionChange (symbols : list string).

(** The dashboard of a session in which the load and the first call of
    [visualize_symbols] return; [Live.serve] has the session in which they
    may raise. *)
Definition serve (df : list Trade) : Dashboard :=
  let '(v, g) := visualize_symbols cross_selector_value (startup df) in
  mkDashboard g cross_selector_value v.

(** One event of a session in which [visualize_symbols] returns;
    [Live.step] has the dashboard whose callback may raise. *)
Definition step (d : Dashboard) (ev : Event) : Dashboard :=
  match ev with
  | RangeChange r =>
      mkDashboard (set_x_range range_stream (Some r) (globals d))
                  (value d) (shown d)
  | SelectionChange symbols =>
      let '(v, g) := visualize_symbols symbols (globals d) in
      mkDashboard g symbols v
  end.

Definition run (d : Dashboard) (evs : list Event) : Dashboard :=
  fold_left step evs d.

(** The scene on screen: image and hover spikes of every selected symbol. *)
Definition published (d : Dashboard) : list (Image * Spikes) :=
  map (render_overlay (globals d)) (items (shown d)).

(** The range the dashboard is zoomed to. *)
Definition current_range (d : Dashboard) : XRange :=
  x_range (deref (globals d) range_stream).

End WithRasterizer.

Arguments visualize_symbol {Image} _ _ _ _.
Arguments visualize_from {Image} _ _ _ _.
Arguments overlay_symbols {Image} _ _ _.
Arguments visualize_symbols {Image} _ _ _.
Arguments mkDashboard {Image} _ _ _.
Arguments globals {Image} _.
Arguments value {Image} _.
Arguments shown {Image} _.
Arguments serve {Image} _ _.
Arguments step {Image} _ _ _.
Arguments run {Image} _ _ _.
Arguments published {Image} _.
Arguments current_range {Image} _.

End IEX_stocks.

(** ** IEX_stocks as the session runs it: the calls that raise *)
Module Live.

Section WithRasterizer.

Variable Image : Type.
Variable spikes_aggregate : Spikes -> XRange -> nat -> Reduction -> Image.

(** The assignment to [range_stream.source] is made after [select] has
    returned: when [select] raises the stream is as it was. *)
Definition visualize_symbol (symbol : string) (offset : nat)
  : Raising (Overlay Image) :=
  spikes <~ lift the_spikes ;;
  selection <~ of_option (select_or_raise spikes symbol) ;;
  lift (set_source IEX_stocks.range_stream selection) ;;~
  let rasterized :=
    mkDynamicMap IEX_stocks.range_stream
      (fun xr => spikes_aggregate selection xr offset (ds_sum "size")) in
  let filtered :=
    apply selection IEX_stocks.xrange_filter IEX_stocks.range_stream in
  returned (mkOverlay rasterized
              (dmap_opts filtered
                 (fun s => opts_position (opts_tools s [hover]) offset))).

(** The loop [for offset, symbol in enumerate(symbols)] from [offset] on:
    it ends at the first symbol for which [visualize_symbol] raises. *)
Fixpoint visualize_from (offset : nat) (symbols : list string)
  : Raising (list (Overlay Image)) :=
  match symbols with
  | [] => returned []
  | symbol :: rest =>
      item <~ visualize_symbol symbol offset ;;
      more <~ visualize_from (S offset) rest ;;
      returned (item :: more)
  end.

(** [hv.Overlay(items).collate()]: an overlay without items has nothing
    to collate and the call raises. *)
Definition collate (items : list (Overlay Image))
  : option (list (Overlay Image)) :=
  match items with
  | [] => None
  | _ :: _ => Some items
  end.

Definition overlay_symbols (symbols : list string)
  : Raising (IEX_stocks.Collated Image) :=
  items <~ visualize_from 0 symbols ;;
  let yticks :=
    map (fun '(i, sym) => (Qplus (inject_Z (Z.of_nat i)) (1 # 2), sym))
        (enumerate symbols) in
  collated <~ of_option (collate items) ;;
  returned (IEX_stocks.mkCollated collated yticks).

Definition visualize_symbols (symbols : list string)
  : Raising (IEX_stocks.Collated Image) :=
  overlay_symbols symbols.

(** [pn.Column(cross_selector, visualize_symbols)] after the cells that
    load the data and declare [spikes] and [range_stream].  The column
    evaluates [visualize_symbols] on the default value of the selector;
    there is no dashboard when the load or that call raises. *)
Definition serve (df : list Trade) : option (IEX_stocks.Dashboard Image) :=
  match load_df df with
  | None => None
  | Some rows =>
      match visualize_symbols IEX_stocks.cross_selector_value
              (mkGlobals (Spikes_of rows) [mkRangeX None None]) with
      | (Some v, g) =>
          Some (IEX_stocks.mkDashboard g IEX_stocks.cross_selector_value v)
      | (None, _) => None
      end
  end.

(** One event.  The selector takes its new value and panel calls
    [visualize_symbols] on it; when the call raises, the pane keeps the
    overlay it shows, and the session keeps what the call had assigned
    before it raised. *)
Definition step (d : IEX_stocks.Dashboard Image) (ev : IEX_stocks.Event)
  : IEX_stocks.Dashboard Image :=
  match ev with
  | IEX_stocks.RangeChange r =>
      IEX_stocks.mkDashboard
        (set_x_range IEX_stocks.range_stream (Some r) (IEX_stocks.globals d))
        (IEX_stocks.value d) (IEX_stocks.shown d)
  | IEX_stocks.SelectionChange symbols =>
      match visualize_symbols symbols (IEX_stocks.globals d) with
      | (Some v, g) => IEX_stocks.mkDashboard g symbols v
      | (None, g) => IEX_stocks.mkDashboard g symbols (IEX_stocks.shown d)
      end
  end.

Definition run (d : IEX_stocks.Dashboard Image)
    (evs : list IEX_stocks.Event) : IEX_stocks.Dashboard Image :=
  fold_left step evs d.

End WithRasterizer.

Arguments visualize_symbol {Image} _ _ _ _.
Arguments visualize_from {Image} _ _ _ _.
Arguments collate {Image} _.
Arguments overlay_symbols {Image} _ _ _.
Arguments visualize_symbols {Image} _ _ _.
Arguments serve {Image} _ _.
Arguments step {Image} _ _ _.
Arguments run {Image} _ _ _.

End Live.

(** ** The aggregation contract *)
Module Aggregator.

(** Modelled from the spec: the [field] argument of the aggregation, which
    the notebooks pass to the library as a reduction.  It is the number of
    events or the sum of a value column; the column reads [None] where an
    event has no numeric value. *)
Inductive Field : Type :=
| count
| sum (column : Trade -> option Z).

(** Modelled from the spec: the [resolution] argument of the aggregation,
    the size of the grid in cells.  A grid has at least one column and one
    row, so that every event has a cell to fall into. *)
Record Resolution : Type := mkResolution {
  columns : positive;
  rows : positive
}.

(** Modelled from the spec: the width of the grid of a resolution, in
    cells. *)
Definition width (resolution : Resolution) : nat :=
  Pos.to_nat (columns resolution).

(** Modelled from the spec: the height of the grid of a resolution, in
    cells. *)
Definition height (resolution : Resolution) : nat :=
  Pos.to_nat (rows resolution).

(** Modelled from the spec: the grid the aggregation returns, [height]
    rows of [width] cells. *)
Definition Grid : Type := list (list Z).

(** Modelled from the spec: what one event adds to its cell in the absent
    aggregation; a missing value is a zero contribution. *)
Definition contribution (field : Field) (e : Trade) : Z :=
  match field with
  | count => 1
  | sum column => match column e with Some v => v | None => 0 end
  end.

(** Modelled from the spec: the statistic of a sequence of events that
    the absent aggregation is compared with. *)
Definition reduce (field : Field) (events : list Trade) : Z :=
  fold_right (fun e acc => contribution field e + acc) 0 events.

(** Modelled from the spec: the events the absent aggregation sees in a
    range.  The convention is the one of the slice of the event store, low
    inclusive and high exclusive. *)
Definition in_range (range : XRange) (e : Trade) : bool :=
  let '(low, high) := unpack range in in_slice low high (timestamp e).

(** Modelled from the spec: the low end of the full extent of the events,
    for the absent aggregation over an unbounded range. *)
Definition first_stamp (events : list Trade) : Z :=
  match events with
  | [] => 0
  | e :: rest => fold_right (fun x m => Z.min (timestamp x) m) (timestamp e) rest
  end.

(** Modelled from the spec: the high end of the full extent of the
    events, for the absent aggregation over an unbounded range. *)
Definition last_stamp (events : list Trade) : Z :=
  match events with
  | [] => 0
  | e :: rest => fold_right (fun x m => Z.max (timestamp x) m) (timestamp e) rest
  end.

(** Modelled from the spec: the interval of the ordinate axis that the
    absent aggregation maps to the columns.  A bound the range gives is
    taken as it is, an absent bound is the full extent of the events on
    that side (one past the last stamp, the interval being half-open). *)
Definition extent (range : XRange) (visible : list Trade) : Z * Z :=
  let '(low, high) := unpack range in
  (match low with Some l => l | None => first_stamp visible end,
   match high with Some h => h | None => last_stamp visible + 1 end).

(** Modelled from the spec: the column the absent aggregation gives an
    ordinate, its position bucketed linearly into [0, width). *)
Definition column_of (lo hi : Z) (width : nat) (t : Z) : nat :=
  Z.to_nat ((t - lo) * Z.of_nat width / (hi - lo)).

(** Modelled from the spec: the value of the cell at [row] and [col] in
    the grid of the absent aggregation.  The grid of a category is laid
    over the band of the category, and an event, which has an ordinate and
    no height, sits on the lower edge of the band: it falls into the first
    row, in the column of its ordinate, and into no other cell. *)
Definition cell (visible : list Trade) (field : Field) (lo hi : Z)
    (width row col : nat) : Z :=
  reduce field
    (filter (fun e => Nat.eqb row 0 &&
                      Nat.eqb col (column_of lo hi width (timestamp e)))
            visible).

(** Modelled from the spec: the rasterizing operation ([spikes_aggregate],
    [Canvas.points]) is a library call of which the notebooks hold no code.
    This is [aggregate(events, range, resolution, field)] of the
    specification: the events in the range are bucketed linearly along the
    ordinate into [width] columns, every event maps to exactly one cell,
    and every cell holds the count or the column sum of the events mapped
    to it.  The integer [offset] selects the band of unit height, from
    [offset] to [offset + 1], over which the grid of the category is laid;
    the bands of different offsets are disjoint, and the offset does not
    change the cells. *)
Definition aggregate (events : list Trade) (range : XRange)
    (resolution : Resolution) (field : Field) (offset : nat) : Grid :=
  let visible := filter (in_range range) events in
  let '(lo, hi) := extent range visible in
  map (fun row =>
         map (fun col => cell visible field lo hi (width resolution)
                              row col)
             (seq 0 (width resolution)))
      (seq 0 (height resolution)).

(** The sum of a sequence of cells. *)
Definition total (cells : list Z) : Z := fold_right Z.add 0 cells.

(** The total mass of a grid. *)
Definition grid_sum (g : Grid) : Z := total (map total g).

(** Modelled from the spec: the value columns the absent aggregation can
    sum, by name; [symbol] is not numeric. *)
Definition column_value (column : string) (e : Trade) : option Z :=
  if String.eqb column "size" then Some (size e)
  else if String.eqb column "price" then Some (price e)
  else None.

(** Modelled from the spec: the field of the absent aggregation for a
    reduction the notebooks pass. *)
Definition field_of (r : Reduction) : Field :=
  match r with
  | ds_count => count
  | ds_sum column => sum (column_value column)
  end.

(** Modelled from the spec: the aggregation contract in the place of the
    library operation the notebooks call, at a fixed resolution. *)
Definition spikes_aggregate (resolution : Resolution) (element : Spikes)
    (x_range : XRange) (offset : nat) (aggregator : Reduction) : Grid :=
  aggregate (data element) x_range resolution (field_of aggregator) offset.

End Aggregator.

(** ** The canvas of the OSM notebook *)
Module OSM.

(** Python's [int] on an exact decimal: truncation towards zero. *)
Definition int (q : Q) : Z := Z.quot (Qnum q) (Zpos (Qden q)).

Definition bound : Q := 2002637639 # 100.

Definition x_range : Q * Q := (Qopp bound, bound).

Definition y_range : Z * Z :=
  (int (Qmult (Qopp bound) (4 # 10)), int (Qmult bound (6 # 10))).

Definition plot_width : Z := 900.

Definition plot_height : Z := int (Qmult (inject_Z plot_width) (5 # 10)).

(** [ds.Canvas(plot_width=plot_width, plot_height=plot_height, **bounds)] *)
Definition cvs : Aggregator.Resolution :=
  Aggregator.mkResolution (Z.to_pos plot_width) (Z.to_pos plot_height).

End OSM.

(** ** Sample data *)

(** A day of [n] trades of one symbol, one per nanosecond. *)
Definition trades_of (sym : string) (n : nat) : list Trade :=
  map (fun i => mkTrade (Z.of_nat i) sym 100 1) (seq 0 n).

(** The three events of the specification's scenario. *)
Definition scenario : list Trade :=
  [mkTrade 0 "A" 10 1; mkTrade 1 "A" 5 1; mkTrade 2 "B" 7 1].


(** A small grid for running the notebooks. *)
Definition small : Aggregator.Resolution := Aggregator.mkResolution 4 2.

(** A CSV file of four trades of 21 October 2019, one a minute from
    13:30:00 UTC, which is 09:30:00 at the exchange. *)
Definition day_df : list Trade :=
  [mkTrade 1571664600000000000 "PINS" 10 250000;
   mkTrade 1571664660000000000 "CHK" 5 14000;
   mkTrade 1571664720000000000 "PINS" 20 250100;
   mkTrade 1571664780000000000 "SNAP" 7 141500].

(** The range from 09:29 to 09:40 at the exchange, which shows every
    trade of [day_df]. *)
Definition morning : option Z * option Z :=
  (Some 1571650140000000000, Some 1571650800000000000).

(** The range from 09:35 down to 09:32. *)
Definition backwards : option Z * option Z :=
  (Some 1571650500000000000, Some 1571650320000000000).

(** A file with the two trades of a symbol out of order. *)
Definition late_first_df : list Trade :=
  [mkTrade 1571664720000000000 "PINS" 20 250100;
   mkTrade 1571664600000000000 "PINS" 10 250000].

(** ** Reference notions the properties are stated with *)

(** A timestamp lies in a range: on or after a present low bound and
    strictly before a present high bound. *)
Definition lies_in (x_range : XRange) (t : Z) : Prop :=
  let '(low, high) := unpack x_range in
  match low with Some l => l <= t | None => True end /\
  match high with Some h => t < h | None => True end.

(** An event matches a range and a category. *)
Definition matches (x_range : XRange) (sym : string) (e : Trade) : bool :=
  (let '(low, high) := unpack x_range in in_slice low high (timestamp e)) &&
  String.eqb (symbol e) sym.

(** Rows in ascending timestamp order. *)
Definition ascending (rows : list Trade) : Prop :=
  Sorted (fun a b => timestamp a <= timestamp b) rows.

(** The overlay [visualize_symbol] builds for a symbol over a store: both
    layers subscribe to [range_stream] and close over the same selection. *)
Definition symbol_overlay {Image : Type}
    (spikes_aggregate : Spikes -> XRange -> nat -> Reduction -> Image)
    (store : Spikes) (item : nat * string) : Overlay Image :=
  let '(offset, sym) := item in
  mkOverlay
    (mkDynamicMap IEX_stocks.range_stream
       (fun xr => spikes_aggregate (select store sym) xr offset
                    (ds_sum "size")))
    (dmap_opts (apply (select store sym) IEX_stocks.xrange_filter
                  IEX_stocks.range_stream)
       (fun s => opts_position (opts_tools s [hover]) offset)).

(** The scene of one symbol at one range: the grid of the symbol's trades
    and their hover spikes, both for that range. *)
Definition scene_at {Image : Type}
    (spikes_aggregate : Spikes -> XRange -> nat -> Reduction -> Image)
    (store : Spikes) (x_range : XRange) (item : nat * string)
  : Image * Spikes :=
  let '(offset, sym) := item in
  (spikes_aggregate (select store sym) x_range offset (ds_sum "size"),
   opts_position
     (opts_tools (IEX_stocks.xrange_filter (select store sym) x_range)
        [hover])
     offset).

(** The symbols of a selection up to the first one without a row in the
    store: those [Live.overlay_symbols] gets through before [select]
    raises. *)
Fixpoint built_prefix (store : Spikes) (symbols : list string)
  : list string :=
  match symbols with
  | [] => []
  | sym :: rest =>
      if has_symbol store sym then sym :: built_prefix store rest else []
  end.

(** A selection for which the notebook builds an overlay: it has a symbol,
    and each of its symbols has a row in the store. *)
Definition buildable (store : Spikes) (symbols : list string) : bool :=
  match symbols with
  | [] => false
  | _ :: _ => forallb (has_symbol store) symbols
  end.

(** The dashboard shows the overlay of the symbols [built] over a store:
    its session still holds the store and the range stream, and the
    overlay on screen is the one [visualize_symbol] builds for each of the
    symbols at its offset. *)
Definition showing {Image : Type}
    (spikes_aggregate : Spikes -> XRange -> nat -> Reduction -> Image)
    (store : Spikes) (built : list string)
    (d : IEX_stocks.Dashboard Image) : Prop :=
  spikes (IEX_stocks.globals d) = store /\
  streams (IEX_stocks.globals d) <> [] /\
  IEX_stocks.items (IEX_stocks.shown d)
  = map (symbol_overlay spikes_aggregate store) (enumerate built).

(** The dashboard served for [day_df] over the aggregation contract. *)
Definition day_served : IEX_stocks.Dashboard Aggregator.Grid :=
  IEX_stocks.serve (Aggregator.spikes_aggregate small) day_df.

(** The dashboard of [day_df] zoomed to the morning. *)
Definition day_zoomed : IEX_stocks.Dashboard Aggregator.Grid :=
  Live.run (Aggregator.spikes_aggregate small) day_served
    [IEX_stocks.RangeChange morning].

(** The dashboard of [day_df] after the browser then reports the range
    from 09:35 down to 09:32. *)
Definition day_backwards : IEX_stocks.Dashboard Aggregator.Grid :=
  Live.step (Aggregator.spikes_aggregate small) day_zoomed
    (IEX_stocks.RangeChange backwards).

(** ** The most traded symbols (IEX_stocks) *)
Module Volumes.

(** The int64 value of an integer: the [size] column is an int64 column,
    and a sum of int64 values that leaves the int64 range wraps around. *)
Definition wrap64 (z : Z) : Z := (z + 2 ^ 63) mod 2 ^ 64 - 2 ^ 63.

(** One row added to the sums of [df.groupby('symbol')['size'].sum()]: the
    groups are kept in ascending order of their key, and the sum of a
    group is an int64 sum. *)
Fixpoint add_volume (sym : string) (v : Z) (groups : list (string * Z))
  : list (string * Z) :=
  match groups with
  | [] => [(sym, v)]
  | (k, total) :: rest =>
      match String.compare sym k with
      | Eq => (k, wrap64 (total + v)) :: rest
      | Lt => (sym, v) :: groups
      | Gt => (k, total) :: add_volume sym v rest
      end
  end.

(** [symbol_volumes = df.groupby('symbol')['size'].sum()].  The rows of
    the dataframe are those that have a symbol: a row whose symbol is
    missing belongs to no group and is not a [Trade]. *)
Definition symbol_volumes (df : list Trade) : list (string * Z) :=
  fold_left (fun groups e => add_volume (symbol e) (size e) groups) df [].

(** [series.sum()], an int64 sum. *)
Definition series_sum (series : list (string * Z)) : Z :=
  fold_right (fun row acc => wrap64 (snd row + acc)) 0 series.

(** The volume a series holds for a symbol, 0 where it holds none. *)
Fixpoint volume_of (series : list (string * Z)) (sym : string) : Z :=
  match series with
  | [] => 0
  | (k, v) :: rest => if String.eqb k sym then v else volume_of rest sym
  end.

(** [series.sort_values()] puts the rows in ascending order of their value
    and leaves the order of equal values to the sorting algorithm: a
    ranking of a series is any rearrangement of it in ascending order. *)
Definition ranking (series ranked : list (string * Z)) : Prop :=
  Permutation ranked series /\
  Sorted (fun a b => snd a <= snd b) ranked.

(** [series[-n:]] *)
Definition last_rows {A : Type} (n : nat) (l : list A) : list A :=
  skipn (List.length l - n) l.

(** [top_symbol_volumes = symbol_volumes.sort_values()[-10:]], on the
    sorted series. *)
Definition top_symbol_volumes (ranked : list (string * Z))
  : list (string * Z) :=
  last_rows 10 ranked.

(** [top_symbols = list(top_symbol_volumes.index)] *)
Definition top_symbols (ranked : list (string * Z)) : list string :=
  map fst (top_symbol_volumes ranked).

End Volumes.

(** ** Further notions for the notebooks *)

(** The groups of a series are in strictly ascending order of their
    keys. *)
Definition keys_ascending (groups : list (string * Z)) : Prop :=
  StronglySorted (fun a b => String.compare (fst a) (fst b) = Lt) groups.

(** The sum of the sizes of a sequence of trades, in the integers. *)
Definition size_sum (rows : list Trade) : Z :=
  fold_right (fun e acc => size e + acc) 0 rows.

(** The sum of the values of a series, in the integers. *)
Definition exact_total (series : list (string * Z)) : Z :=
  fold_right (fun row acc => snd row + acc) 0 series.

(** The values of a series are not negative. *)
Definition nonnegative (series : list (string * Z)) : Prop :=
  forall row, In row series -> 0 <= snd row.

(** A file whose sums stay in the int64 range: no size is negative, and
    the sizes add up to less than [2 ^ 63]. *)
Definition sums_fit (df : list Trade) : Prop :=
  (forall e, In e df -> 0 <= size e) /\ size_sum df < 2 ^ 63.

(** A UTC bound for a bound in exchange time: four hours later. *)
Definition utc_bound (b : option Z) : option Z :=
  option_map (fun t => t + 4 * 3600 * 1000000000) b.

(** The session after [overlay_symbols]: [range_stream] has the selection
    of the last symbol as its source, nothing else has changed; with no
    symbol the session is as it was. *)
Definition rebound (g : Globals) (symbols : list string) : Globals :=
  match symbols with
  | [] => g
  | _ :: _ =>
      snd (set_source IEX_stocks.range_stream
             (select (spikes g) (last symbols "")) g)
  end.

(** The tick labels [overlay_symbols] computes. *)
Definition yticks_of (symbols : list string) : list (Q * string) :=
  map (fun '(i, sym) => (Qplus (inject_Z (Z.of_nat i)) (1 # 2), sym))
      (enumerate symbols).

(** The range of the last range change of a trace, none before the first. *)
Definition last_range (evs : list IEX_stocks.Event) : XRange :=
  fold_left (fun acc ev =>
               match ev with
               | IEX_stocks.RangeChange r => Some r
               | IEX_stocks.SelectionChange _ => acc
               end) evs None.

(** The symbols of the last selection change of a trace, the default
    value of the selector before the first. *)
Definition last_selection (evs : list IEX_stocks.Event) : list string :=
  fold_left (fun acc ev =>
               match ev with
               | IEX_stocks.RangeChange _ => acc
               | IEX_stocks.SelectionChange symbols => symbols
               end) evs IEX_stocks.cross_selector_value.

(** The symbols on screen after a trace: those of the last selection
    change for which an overlay was built, the default value of the
    selector before the first. *)
Definition last_built (store : Spikes) (evs : list IEX_stocks.Event)
  : list string :=
  fold_left (fun acc ev =>
               match ev with
               | IEX_stocks.RangeChange _ => acc
               | IEX_stocks.SelectionChange symbols =>
                   if buildable store symbols then symbols else acc
               end) evs IEX_stocks.cross_selector_value.

(** A range is within another when every timestamp in it is in the
    other. *)
Definition within (inner outer : XRange) : Prop :=
  forall t : Z, lies_in inner t -> lies_in outer t.

(** A small file with equal volumes, and one ranking of its series. *)
Definition volumes_df : list Trade :=
  [mkTrade 1 "PINS" 10 250000; mkTrade 2 "CHK" 5 14000;
   mkTrade 3 "PINS" 20 250100; mkTrade 4 "SNAP" 5 141500].

Definition volumes_ranked : list (string * Z) :=
  [("SNAP", 5); ("CHK", 5); ("PINS", 30)].

(** A file with eleven symbols, the first of them the most traded, and
    the ranking of its series. *)
Definition eleven_df : list Trade :=
  [mkTrade 1 "A" 20 1; mkTrade 2 "B" 1 1; mkTrade 3 "C" 2 1;
   mkTrade 4 "D" 3 1; mkTrade 5 "E" 4 1; mkTrade 6 "F" 5 1;
   mkTrade 7 "G" 6 1; mkTrade 8 "H" 7 1; mkTrade 9 "I" 8 1;
   mkTrade 10 "J" 9 1; mkTrade 11 "K" 10 1; mkTrade 12 "A" 30 1].

Definition eleven_ranked : list (string * Z) :=
  [("B", 1); ("C", 2); ("D", 3); ("E", 4); ("F", 5); ("G", 6); ("H", 7);
   ("I", 8); ("J", 9); ("K", 10); ("A", 50)].

(** ** Shared facts about the element operations *)

Lemma xrange_filter_stocks_at spikes x_range :
  IEX_stocks.xrange_filter spikes x_range = xrange_filter_at 200 spikes x_range.
Proof.
  unfold IEX_stocks.xrange_filter, xrange_filter_at, ranged_of, unpack.
  destruct x_range as [[low high]|]; reflexivity.
Qed.

Lemma xrange_filter_trading_at spikes x_range :
  IEX_trading.xrange_filter spikes x_range = xrange_filter_at 600 spikes x_range.
Proof.
  unfold IEX_trading.xrange_filter, xrange_filter_at, ranged_of, unpack.
  destruct x_range as [[low high]|]; reflexivity.
Qed.

Lemma data_xrange_filter_below threshold spikes x_range :
  (len (ranged_of spikes x_range) < threshold)%nat ->
  data (xrange_filter_at threshold spikes x_range)
  = data (ranged_of spikes x_range).
Proof.
  intros Hlt. unfold xrange_filter_at.
  apply Nat.ltb_lt in Hlt. rewrite Hlt. reflexivity.
Qed.

Lemma data_xrange_filter_reached threshold spikes x_range :
  (threshold <= len (ranged_of spikes x_range))%nat ->
  data (xrange_filter_at threshold spikes x_range) = [].
Proof.
  intros Hge. unfold xrange_filter_at.
  apply Nat.ltb_ge in Hge. rewrite Hge. reflexivity.
Qed.

(** ** The hover threshold *)

(** C1. The hover filter is all or nothing: when the slice holds fewer rows
    than the cut-off the filter returns exactly the slice, when it holds at
    least the cut-off the filter returns no row; so the output is the whole
    slice or nothing, never a proper part of it.  With the cut-off 200 of
    IEX_stocks a slice of 199 rows gives 199 rows and a slice of 200 rows
    gives none; the same holds at the cut-off 600 of IEX_trading. *)
Theorem detail_filter_all_or_nothing :
  forall (spikes : Spikes) (x_range : XRange),
    let ranged := ranged_of spikes x_range in
    (forall T : nat,
        ((len ranged < T)%nat ->
         data (xrange_filter_at T spikes x_range) = data ranged) /\
        ((T <= len ranged)%nat ->
         data (xrange_filter_at T spikes x_range) = []) /\
        (data (xrange_filter_at T spikes x_range) = data ranged \/
         data (xrange_filter_at T spikes x_range) = [])) /\
    ((len ranged < 200)%nat ->
     data (IEX_stocks.xrange_filter spikes x_range) = data ranged) /\
    ((200 <= len ranged)%nat ->
     data (IEX_stocks.xrange_filter spikes x_range) = []) /\
    (len ranged = 199%nat ->
     len (IEX_stocks.xrange_filter spikes x_range) = 199%nat) /\
    (len ranged = 200%nat ->
     len (IEX_stocks.xrange_filter spikes x_range) = 0%nat) /\
    ((len ranged < 600)%nat ->
     data (IEX_trading.xrange_filter spikes x_range) = data ranged) /\
    ((600 <= len ranged)%nat ->
     data (IEX_trading.xrange_filter spikes x_range) = []).
Proof.
  intros spikes x_range ranged. subst ranged.
  rewrite xrange_filter_stocks_at, xrange_filter_trading_at.
  split; [intros T; split; [|split]|].
  - apply data_xrange_filter_below.
  - apply data_xrange_filter_reached.
  - destruct (Nat.lt_ge_cases (len (ranged_of spikes x_range)) T) as [H|H].
    + left. now apply data_xrange_filter_below.
    + right. now apply data_xrange_filter_reached.
  - repeat split.
    + apply data_xrange_filter_below.
    + apply data_xrange_filter_reached.
    + intros H. unfold len at 1.
      rewrite data_xrange_filter_below by lia. exact H.
    + intros H. unfold len at 1.
      rewrite data_xrange_filter_reached by lia. reflexivity.
    + apply data_xrange_filter_below.
    + apply data_xrange_filter_reached.
Qed.

Lemma detail_filter_all_or_nothing_witness :
  len (IEX_stocks.xrange_filter (Spikes_of (trades_of "PINS" 199)) None)
  = 199%nat /\
  len (IEX_stocks.xrange_filter (Spikes_of (trades_of "PINS" 200)) None)
  = 0%nat.
Proof.
  split.
  - apply (detail_filter_all_or_nothing (Spikes_of (trades_of "PINS" 199)) None).
    vm_compute. reflexivity.
  - apply (detail_filter_all_or_nothing (Spikes_of (trades_of "PINS" 200)) None).
    vm_compute. reflexivity.
Defined.

(** ** Slicing and selecting *)

Lemma in_slice_iff low high t :
  in_slice low high t = true <->
  match low with Some l => l <= t | None => True end /\
  match high with Some h => t < h | None => True end.
Proof.
  unfold in_slice. rewrite andb_true_iff.
  destruct low, high; rewrite ?Z.leb_le, ?Z.ltb_lt; intuition auto.
Qed.

Lemma in_range_lies_in x_range t :
  (let '(low, high) := unpack x_range in in_slice low high t) = true <->
  lies_in x_range t.
Proof.
  unfold lies_in. destruct (unpack x_range) as [low high].
  apply in_slice_iff.
Qed.

Lemma matches_iff x_range sym e :
  matches x_range sym e = true <->
  lies_in x_range (timestamp e) /\ symbol e = sym.
Proof.
  unfold matches. rewrite andb_true_iff, in_range_lies_in, String.eqb_eq.
  reflexivity.
Qed.

Lemma filter_all {A : Type} (f : A -> bool) (l : list A) :
  (forall x, In x l -> f x = true) -> filter f l = l.
Proof.
  induction l as [|a l IH]; intros H; simpl; [reflexivity|].
  rewrite (H a (or_introl eq_refl)). f_equal.
  apply IH. intros x Hx. apply H. now right.
Qed.

Lemma filter_filter {A : Type} (f g : A -> bool) (l : list A) :
  filter f (filter g l) = filter (fun x => f x && g x) l.
Proof.
  induction l as [|a l IH]; simpl; [reflexivity|].
  destruct (g a); simpl.
  - destruct (f a); simpl; now rewrite IH.
  - rewrite andb_false_r. exact IH.
Qed.

Lemma data_ranged_of s x_range :
  data (ranged_of s x_range)
  = filter (fun e => let '(low, high) := unpack x_range in
                     in_slice low high (timestamp e)) (data s).
Proof.
  unfold ranged_of. destruct (unpack x_range) as [low high]. reflexivity.
Qed.

Lemma data_ranged_of_None s : data (ranged_of s None) = data s.
Proof.
  rewrite data_ranged_of. apply filter_all. intros; reflexivity.
Qed.

Lemma In_ranged_of s x_range e :
  In e (data (ranged_of s x_range)) <->
  In e (data s) /\ lies_in x_range (timestamp e).
Proof.
  rewrite data_ranged_of, filter_In.
  rewrite (in_range_lies_in x_range (timestamp e)). reflexivity.
Qed.

Lemma In_select s sym e :
  In e (data (select s sym)) <-> In e (data s) /\ symbol e = sym.
Proof.
  unfold select; simpl. rewrite filter_In, String.eqb_eq. reflexivity.
Qed.

Lemma query_as_filter store x_range sym :
  data (ranged_of (select store sym) x_range)
  = filter (matches x_range sym) (data store).
Proof.
  rewrite data_ranged_of. unfold select; simpl.
  rewrite filter_filter. reflexivity.
Qed.

Lemma ascending_filter (f : Trade -> bool) (rows : list Trade) :
  ascending rows -> ascending (filter f rows).
Proof.
  unfold ascending. intros Hs.
  apply StronglySorted_Sorted.
  apply Sorted_StronglySorted in Hs;
    [|intros a b c Hab Hbc; now apply Z.le_trans with (timestamp b)].
  induction Hs as [|a l Hl IH Hall]; simpl; [constructor|].
  destruct (f a); [|exact IH].
  constructor; [exact IH|].
  rewrite Forall_forall in *. intros x Hx.
  apply filter_In in Hx. now apply Hall.
Qed.

(** ** The event store query *)

Lemma has_symbol_iff (s : Spikes) (sym : string) :
  has_symbol s sym = true <-> exists e, In e (data s) /\ symbol e = sym.
Proof.
  unfold has_symbol. rewrite existsb_exists.
  split; intros (e & Hin & He); exists e; (split; [exact Hin|]);
    now apply String.eqb_eq.
Qed.

Lemma has_symbol_absent (s : Spikes) (sym : string) :
  has_symbol s sym = false <-> forall e, In e (data s) -> symbol e <> sym.
Proof.
  rewrite <- not_true_iff_false, has_symbol_iff. split.
  - intros Hno e Hin Heq. apply Hno. now exists e.
  - intros Hno (e & Hin & Heq). now apply (Hno e).
Qed.

(** C4, as the code has it.  For a category with an event in the store,
    the query the views make, selecting the category and then slicing on
    the range, returns exactly the stored events whose timestamp lies in
    the range and whose category is the selected one (the sub-sequence of
    the store that matches, every occurrence kept once), in the order of
    the store, which is ascending timestamp order when the store is in
    ascending timestamp order; with no range set it returns every event of
    the category.  For a set of categories the queries that return, one
    per category, return together exactly the events in the range whose
    category is in the set.  For a category with no event in the store the
    selection raises and the query returns nothing. *)
Theorem query_returns_matching_events :
  forall (store : Spikes) (x_range : XRange),
    (forall sym : string,
        has_symbol store sym = true ->
        exists selection : Spikes,
          select_or_raise store sym = Some selection /\
          data (ranged_of selection x_range)
          = filter (matches x_range sym) (data store) /\
          (forall e, In e (data (ranged_of selection x_range)) <->
                     In e (data store) /\
                     lies_in x_range (timestamp e) /\ symbol e = sym) /\
          (ascending (data store) ->
           ascending (data (ranged_of selection x_range))) /\
          data (ranged_of selection None) = data selection /\
          (forall e, In e (data (ranged_of selection None)) <->
                     In e (data store) /\ symbol e = sym)) /\
    (forall (symbols : list string) (e : Trade),
        (exists (sym : string) (selection : Spikes),
            In sym symbols /\
            select_or_raise store sym = Some selection /\
            In e (data (ranged_of selection x_range))) <->
        In e (data store) /\
        lies_in x_range (timestamp e) /\ In (symbol e) symbols) /\
    (forall sym : string,
        (forall e, In e (data store) -> symbol e <> sym) ->
        select_or_raise store sym = None).
Proof.
  intros store x_range. split; [|split].
  - intros sym Hhas. exists (select store sym).
    unfold select_or_raise. rewrite Hhas.
    split; [reflexivity|].
    split; [apply query_as_filter|].
    split; [|split; [|split]].
    + intros e. rewrite In_ranged_of, In_select. tauto.
    + intros Hs. rewrite query_as_filter. now apply ascending_filter.
    + apply data_ranged_of_None.
    + intros e. rewrite data_ranged_of_None, In_select. tauto.
  - intros symbols e. split.
    + intros (sym & selection & Hsym & Hsel & Hin).
      unfold select_or_raise in Hsel.
      destruct (has_symbol store sym); [|discriminate].
      injection Hsel as <-.
      rewrite In_ranged_of, In_select in Hin.
      destruct Hin as ((Hin & Heq) & Hr). subst sym. tauto.
    + intros (Hin & Hr & Hs). exists (symbol e), (select store (symbol e)).
      split; [exact Hs|]. split.
      * unfold select_or_raise.
        replace (has_symbol store (symbol e)) with true; [reflexivity|].
        symmetry. apply has_symbol_iff. now exists e.
      * rewrite In_ranged_of, In_select. tauto.
  - intros sym Hno. unfold select_or_raise.
    apply has_symbol_absent in Hno. now rewrite Hno.
Qed.

Lemma query_returns_matching_events_witness :
  exists selection : Spikes,
    select_or_raise (Spikes_of (to_exchange_time day_df)) "PINS"
    = Some selection /\
    data (ranged_of selection (Some morning))
    = [mkTrade 1571650200000000000 "PINS" 10 250000;
       mkTrade 1571650320000000000 "PINS" 20 250100] /\
    ascending (data (ranged_of selection (Some morning))).
Proof.
  destruct (query_returns_matching_events
              (Spikes_of (to_exchange_time day_df)) (Some morning))
    as (Hquery & _).
  destruct (Hquery "PINS" eq_refl)
    as (selection & Hsel & Hdata & _ & Hasc & _).
  exists selection. split; [exact Hsel|]. split.
  - rewrite Hdata. reflexivity.
  - apply Hasc. unfold ascending, day_df; simpl.
    repeat constructor; simpl; lia.
Defined.

(** C4, as stated, fails.  Over a file that holds the two trades of a
    symbol out of order the query returns them in the order of the file,
    the later one first; and for a value of the selector that is the
    symbol of no trade the selection raises, so the query returns no
    sequence of events at all. *)
Lemma query_follows_the_store :
  data (ranged_of (select (Spikes_of (to_exchange_time late_first_df)) "PINS")
          None)
  = [mkTrade 1571650320000000000 "PINS" 20 250100;
     mkTrade 1571650200000000000 "PINS" 10 250000] /\
  ~ ascending
      (data (ranged_of
               (select (Spikes_of (to_exchange_time late_first_df)) "PINS")
               None)) /\
  select_or_raise (Spikes_of (to_exchange_time day_df)) "General Electric"
  = None.
Proof.
  split; [reflexivity|]. split; [|reflexivity].
  intros Hasc. unfold ascending in Hasc. simpl in Hasc.
  inversion Hasc as [|a l Hrest Hhd]; subst.
  inversion Hhd as [|b l' Hle]; subst.
  simpl in Hle. lia.
Qed.

(** ** Absent and one-sided ranges *)


(** ** The session store of streams *)

Lemma x_range_assign_frame (h : list RangeX) (r : nat) (v : RangeX) :
  x_range v = x_range (nth r h unset) ->
  x_range (nth r (assign h r v) unset) = x_range (nth r h unset).
Proof.
  revert r. induction h as [|x h IH]; intros [|r] Hv; simpl in *;
    try reflexivity; [exact Hv|].
  now apply IH.
Qed.

Lemma assign_nonempty (h : list RangeX) (r : nat) (v : RangeX) :
  h <> [] -> assign h r v <> [].
Proof. destruct h, r; simpl; congruence. Qed.

Lemma x_range_set_source (g : Globals) (r : nat) (s : Spikes) :
  x_range (deref (snd (set_source r s g)) r) = x_range (deref g r).
Proof.
  unfold set_source, deref; simpl. now apply x_range_assign_frame.
Qed.

Lemma x_range_set_x_range (g : Globals) (xr : XRange) :
  streams g <> [] ->
  x_range (deref (set_x_range IEX_stocks.range_stream xr g)
                 IEX_stocks.range_stream) = xr.
Proof.
  intros Hne. unfold set_x_range, deref, IEX_stocks.range_stream; simpl.
  destruct (streams g) as [|x h]; [congruence|reflexivity].
Qed.

(** ** What the notebook functions build *)

(** Run a notebook computation whose outcome [lemma] describes: the
    description becomes [H], stated on the two components of the result. *)
Ltac run_notebook lemma H :=
  pose proof lemma as H; cbn zeta in H;
  lazymatch type of H with
  | context [fst ?c] => destruct c as [? ?]
  end;
  cbn [fst snd] in H.

Section Views.

Context {Image : Type}.
Variable spikes_aggregate : Spikes -> XRange -> nat -> Reduction -> Image.

Lemma visualize_symbol_run (symbol : string) (offset : nat) (g : Globals) :
  IEX_stocks.visualize_symbol spikes_aggregate symbol offset g
  = (symbol_overlay spikes_aggregate (spikes g) (offset, symbol),
     snd (set_source IEX_stocks.range_stream (select (spikes g) symbol) g)).
Proof. reflexivity. Qed.

Lemma visualize_from_run (symbols : list string) :
  forall (offset : nat) (g : Globals),
    let out := IEX_stocks.visualize_from spikes_aggregate offset symbols g in
    fst out = map (symbol_overlay spikes_aggregate (spikes g))
                  (enumerate_from offset symbols) /\
    spikes (snd out) = spikes g /\
    x_range (deref (snd out) IEX_stocks.range_stream)
    = x_range (deref g IEX_stocks.range_stream) /\
    (streams g <> [] -> streams (snd out) <> []).
Proof.
  induction symbols as [|symbol rest IH]; intros offset g out.
  - subst out; simpl. repeat split; auto.
  - set (g1 := snd (set_source IEX_stocks.range_stream
                      (select (spikes g) symbol) g)).
    assert (Hout : out
              = (symbol_overlay spikes_aggregate (spikes g) (offset, symbol)
                 :: fst (IEX_stocks.visualize_from spikes_aggregate
                           (S offset) rest g1),
                 snd (IEX_stocks.visualize_from spikes_aggregate
                        (S offset) rest g1))).
    { subst out. cbn [IEX_stocks.visualize_from]. unfold bind.
      rewrite visualize_symbol_run. fold g1.
      destruct (IEX_stocks.visualize_from spikes_aggregate (S offset) rest g1).
      reflexivity. }
    rewrite Hout. cbn [fst snd].
    destruct (IH (S offset) g1) as (Hitems & Hsp & Hxr & Hne).
    assert (Hsp1 : spikes g1 = spikes g) by reflexivity.
    split; [|split; [|split]].
    + unfold enumerate_from in *. cbn [List.length seq combine map].
      rewrite Hitems, Hsp1. reflexivity.
    + rewrite Hsp. exact Hsp1.
    + rewrite Hxr. apply x_range_set_source.
    + intros Hg. apply Hne. subst g1. cbn. now apply assign_nonempty.
Qed.

Lemma render_symbol_overlay (g : Globals) (store : Spikes)
    (item : nat * string) :
  render_overlay g (symbol_overlay spikes_aggregate store item)
  = scene_at spikes_aggregate store
      (x_range (deref g IEX_stocks.range_stream)) item.
Proof. destruct item as [offset sym]. reflexivity. Qed.

Lemma symbol_overlay_streams (store : Spikes) (item : nat * string) :
  dm_stream (raster (symbol_overlay spikes_aggregate store item))
  = IEX_stocks.range_stream /\
  dm_stream (hover_layer (symbol_overlay spikes_aggregate store item))
  = IEX_stocks.range_stream.
Proof. destruct item as [offset sym]. split; reflexivity. Qed.

Lemma overlay_symbols_run (symbols : list string) (g : Globals) :
  let out := IEX_stocks.visualize_symbols spikes_aggregate symbols g in
  IEX_stocks.items (fst out)
  = map (symbol_overlay spikes_aggregate (spikes g)) (enumerate symbols) /\
  spikes (snd out) = spikes g /\
  x_range (deref (snd out) IEX_stocks.range_stream)
  = x_range (deref g IEX_stocks.range_stream) /\
  (streams g <> [] -> streams (snd out) <> []).
Proof.
  intros out. subst out.
  unfold IEX_stocks.visualize_symbols, IEX_stocks.overlay_symbols, bind.
  run_notebook (visualize_from_run symbols 0 g) H.
  exact H.
Qed.

(** ** The dashboard as it is served *)

Lemma serve_shows_default (df : list Trade) :
  showing spikes_aggregate (Spikes_of (to_exchange_time df))
    IEX_stocks.cross_selector_value (IEX_stocks.serve spikes_aggregate df).
Proof.
  unfold IEX_stocks.serve.
  run_notebook (overlay_symbols_run IEX_stocks.cross_selector_value
                  (IEX_stocks.startup df)) H.
  destruct H as (Hit & Hsp & _ & Hne).
  unfold showing; cbn. repeat split.
  - exact Hsp.
  - apply Hne. discriminate.
  - exact Hit.
Qed.

End Views.

(** ** Properties of the coordinated views *)

Lemma data_xrange_filter_inverted (s : Spikes) (low high : Z) :
  high < low ->
  data (IEX_stocks.xrange_filter s (Some (Some low, Some high))) = [].
Proof.
  intros Hinv. rewrite xrange_filter_stocks_at.
  assert (Hempty : data (ranged_of s (Some (Some low, Some high))) = []).
  { rewrite data_ranged_of. simpl.
    induction (data s) as [|e rows IH]; simpl; [reflexivity|].
    replace (in_slice (Some low) (Some high) (timestamp e)) with false;
      [exact IH|].
    symmetry. apply not_true_is_false. rewrite in_slice_iff. lia. }
  rewrite data_xrange_filter_below; [exact Hempty|].
  unfold len. rewrite Hempty. simpl. lia.
Qed.

Lemma select_skips_other_symbol (before after : list Trade) (e : Trade)
    (o : Options) (D : string) :
  symbol e <> D ->
  select (mkSpikes (before ++ e :: after) o) D
  = select (mkSpikes (before ++ after) o) D.
Proof.
  intros Hne. unfold select; simpl. f_equal.
  rewrite !filter_app. simpl.
  apply String.eqb_neq in Hne. now rewrite Hne.
Qed.

Section Coordination.

Context {Image : Type}.
Variable spikes_aggregate : Spikes -> XRange -> nat -> Reduction -> Image.


(** C8. Adding to the store an event of a category other than [D] changes
    neither the selection of [D] nor anything computed from it: the overlay
    [visualize_symbol] builds for [D], the streams it leaves behind, and
    the grid and the hover spikes of [D] at every range are the same with
    and without the event. *)
Theorem category_isolation :
  forall (before after : list Trade) (e : Trade) (o : Options) (D : string)
         (offset : nat) (session : list RangeX),
    symbol e <> D ->
    let old := mkGlobals (mkSpikes (before ++ after) o) session in
    let new := mkGlobals (mkSpikes (before ++ e :: after) o) session in
    select (spikes new) D = select (spikes old) D /\
    fst (IEX_stocks.visualize_symbol spikes_aggregate D offset new)
    = fst (IEX_stocks.visualize_symbol spikes_aggregate D offset old) /\
    streams (snd (IEX_stocks.visualize_symbol spikes_aggregate D offset new))
    = streams (snd (IEX_stocks.visualize_symbol spikes_aggregate D offset old)) /\
    (forall x_range : XRange,
        scene_at spikes_aggregate (spikes new) x_range (offset, D)
        = scene_at spikes_aggregate (spikes old) x_range (offset, D)).
Proof.
  intros before after e o D offset session Hne old new.
  assert (Hsel : select (spikes new) D = select (spikes old) D)
    by now apply select_skips_other_symbol.
  split; [exact Hsel|].
  rewrite !visualize_symbol_run. cbn [fst snd].
  split; [|split].
  - unfold symbol_overlay. now rewrite Hsel.
  - unfold set_source. cbn [snd streams]. rewrite Hsel. reflexivity.
  - intros x_range. unfold scene_at. now rewrite Hsel.
Qed.

End Coordination.

Lemma category_isolation_witness :
  select (mkSpikes ([mkTrade 1 "PINS" 10 250000]
                    ++ mkTrade 2 "CHK" 5 14000
                    :: [mkTrade 3 "PINS" 20 250100]) no_options) "PINS"
  = select (mkSpikes ([mkTrade 1 "PINS" 10 250000]
                      ++ [mkTrade 3 "PINS" 20 250100]) no_options) "PINS".
Proof.
  apply (category_isolation (Aggregator.spikes_aggregate small)
           [mkTrade 1 "PINS" 10 250000] [mkTrade 3 "PINS" 20 250100]
           (mkTrade 2 "CHK" 5 14000) no_options "PINS" 0%nat []).
  apply String.eqb_neq. reflexivity.
Defined.

(** ** The aggregation contract: totals *)

Lemma total_map_add {A : Type} (f g : A -> Z) (l : list A) :
  Aggregator.total (map (fun x => f x + g x) l)
  = Aggregator.total (map f l) + Aggregator.total (map g l).
Proof. induction l as [|a l IH]; simpl; lia. Qed.

Lemma total_map_zero {A : Type} (l : list A) :
  Aggregator.total (map (fun _ => 0) l) = 0.
Proof. induction l as [|a l IH]; simpl; lia. Qed.

Lemma total_indicator (v : Z) (k n : nat) :
  forall start : nat,
    Aggregator.total (map (fun x => if Nat.eqb x k then v else 0)
                          (seq start n))
    = if Nat.leb start k && Nat.ltb k (start + n) then v else 0.
Proof.
  induction n as [|n IH]; intros start; simpl.
  - destruct (Nat.leb_spec start k), (Nat.ltb_spec k (start + 0));
      simpl; try reflexivity; lia.
  - rewrite IH.
    destruct (Nat.eqb_spec start k), (Nat.leb_spec (S start) k),
      (Nat.ltb_spec k (S start + n)), (Nat.leb_spec start k),
      (Nat.ltb_spec k (start + S n)); simpl; lia.
Qed.

Lemma total_indicator_inside (v : Z) (k n : nat) :
  (k < n)%nat ->
  Aggregator.total (map (fun x => if Nat.eqb x k then v else 0) (seq 0 n)) = v.
Proof.
  intros Hk. rewrite total_indicator.
  destruct (Nat.leb_spec 0 k), (Nat.ltb_spec k (0 + n)); simpl;
    try reflexivity; lia.
Qed.

Lemma reduce_count (events : list Trade) :
  Aggregator.reduce Aggregator.count events
  = Z.of_nat (List.length events).
Proof.
  induction events as [|e events IH]; [reflexivity|].
  change (1 + Aggregator.reduce Aggregator.count events
          = Z.of_nat (S (List.length events))).
  rewrite IH. lia.
Qed.

Lemma reduce_sum_size (events : list Trade) :
  Aggregator.reduce (Aggregator.sum (Aggregator.column_value "size")) events
  = Aggregator.total (map size events).
Proof.
  induction events as [|e events IH]; [reflexivity|].
  change (size e
          + Aggregator.reduce
              (Aggregator.sum (Aggregator.column_value "size")) events
          = size e + Aggregator.total (map size events)).
  now rewrite IH.
Qed.

(** ** The aggregation contract: every visible event has its cell *)

Lemma first_stamp_le (rest : list Trade) (base : Z) :
  fold_right (fun x m => Z.min (timestamp x) m) base rest <= base /\
  forall e, In e rest ->
            fold_right (fun x m => Z.min (timestamp x) m) base rest
            <= timestamp e.
Proof.
  induction rest as [|x rest [IHb IHe]]; simpl.
  - split; [lia|contradiction].
  - split; [lia|].
    intros e [->|He]; [lia|]. specialize (IHe e He). lia.
Qed.

Lemma last_stamp_ge (rest : list Trade) (base : Z) :
  base <= fold_right (fun x m => Z.max (timestamp x) m) base rest /\
  forall e, In e rest ->
            timestamp e
            <= fold_right (fun x m => Z.max (timestamp x) m) base rest.
Proof.
  induction rest as [|x rest [IHb IHe]]; simpl.
  - split; [lia|contradiction].
  - split; [lia|].
    intros e [->|He]; [lia|]. specialize (IHe e He). lia.
Qed.

Lemma stamps_bound (events : list Trade) (e : Trade) :
  In e events ->
  Aggregator.first_stamp events <= timestamp e
  <= Aggregator.last_stamp events.
Proof.
  destruct events as [|x rest]; [contradiction|].
  unfold Aggregator.first_stamp, Aggregator.last_stamp.
  destruct (first_stamp_le rest (timestamp x)) as [Hb He].
  destruct (last_stamp_ge rest (timestamp x)) as [Hb' He'].
  intros [->|Hin]; [lia|].
  specialize (He e Hin). specialize (He' e Hin). lia.
Qed.

Lemma extent_covers (range : XRange) (events : list Trade) (e : Trade) :
  let visible := filter (Aggregator.in_range range) events in
  In e visible ->
  fst (Aggregator.extent range visible) <= timestamp e
  < snd (Aggregator.extent range visible).
Proof.
  intros visible Hin.
  pose proof (stamps_bound visible e Hin) as Hb.
  subst visible. apply filter_In in Hin. destruct Hin as [_ Hr].
  unfold Aggregator.in_range in Hr. unfold Aggregator.extent.
  destruct (unpack range) as [low high].
  apply in_slice_iff in Hr.
  destruct low, high; simpl; lia.
Qed.

Lemma column_in_grid (lo hi t : Z) (width : nat) :
  lo <= t < hi -> (0 < width)%nat ->
  (Aggregator.column_of lo hi width t < width)%nat.
Proof.
  intros Ht Hw. unfold Aggregator.column_of.
  assert (Hq : 0 <= (t - lo) * Z.of_nat width / (hi - lo) < Z.of_nat width).
  { split.
    - apply Z.div_pos; nia.
    - apply Z.div_lt_upper_bound; nia. }
  lia.
Qed.

Lemma cell_cons (e : Trade) (rows : list Trade) (field : Aggregator.Field)
    (lo hi : Z) (width row col : nat) :
  Aggregator.cell (e :: rows) field lo hi width row col
  = (if Nat.eqb row 0 &&
        Nat.eqb col (Aggregator.column_of lo hi width (timestamp e))
     then Aggregator.contribution field e else 0)
    + Aggregator.cell rows field lo hi width row col.
Proof.
  unfold Aggregator.cell. simpl.
  destruct (Nat.eqb row 0 &&
            Nat.eqb col (Aggregator.column_of lo hi width (timestamp e)));
    simpl; reflexivity.
Qed.

Lemma row_total_cons (e : Trade) (rows : list Trade)
    (field : Aggregator.Field) (lo hi : Z) (width row : nat) :
  (Aggregator.column_of lo hi width (timestamp e) < width)%nat ->
  Aggregator.total
    (map (fun col => Aggregator.cell (e :: rows) field lo hi width
                       row col) (seq 0 width))
  = (if Nat.eqb row 0 then Aggregator.contribution field e else 0)
    + Aggregator.total
        (map (fun col => Aggregator.cell rows field lo hi width
                           row col) (seq 0 width)).
Proof.
  intros Hcol.
  rewrite (map_ext _ _ (fun col => cell_cons e rows field lo hi width
                                     row col)).
  rewrite total_map_add. f_equal.
  destruct (Nat.eqb row 0); simpl.
  - now apply total_indicator_inside.
  - apply total_map_zero.
Qed.

Lemma grid_sum_cells (rows : list Trade) (field : Aggregator.Field)
    (lo hi : Z) (width height : nat) :
  (0 < height)%nat ->
  (forall e, In e rows ->
             (Aggregator.column_of lo hi width (timestamp e) < width)%nat) ->
  Aggregator.grid_sum
    (map (fun row =>
            map (fun col => Aggregator.cell rows field lo hi width
                              row col) (seq 0 width))
         (seq 0 height))
  = Aggregator.reduce field rows.
Proof.
  intros Hoff. unfold Aggregator.grid_sum. rewrite map_map.
  induction rows as [|e rows IH]; intros Hcols.
  - simpl.
    rewrite (map_ext _ (fun _ => 0));
      [apply total_map_zero|intros row; apply total_map_zero].
  - rewrite (map_ext _ _ (fun row =>
               row_total_cons e rows field lo hi width row
                 (Hcols e (or_introl eq_refl)))).
    rewrite total_map_add, IH by (intros x Hx; apply Hcols; now right).
    rewrite total_indicator_inside by exact Hoff.
    reflexivity.
Qed.

Lemma aggregate_unfold (events : list Trade) (range : XRange)
    (resolution : Aggregator.Resolution) (field : Aggregator.Field)
    (offset : nat) :
  let visible := filter (Aggregator.in_range range) events in
  Aggregator.aggregate events range resolution field offset
  = map (fun row =>
           map (fun col =>
                  Aggregator.cell visible field
                    (fst (Aggregator.extent range visible))
                    (snd (Aggregator.extent range visible))
                    (Aggregator.width resolution) row col)
               (seq 0 (Aggregator.width resolution)))
        (seq 0 (Aggregator.height resolution)).
Proof.
  intros visible. unfold Aggregator.aggregate. fold visible.
  destruct (Aggregator.extent range visible) as [lo hi]. reflexivity.
Qed.

Lemma aggregate_mass (events : list Trade) (range : XRange)
    (resolution : Aggregator.Resolution) (field : Aggregator.Field)
    (offset : nat) :
  Aggregator.grid_sum
    (Aggregator.aggregate events range resolution field offset)
  = Aggregator.reduce field (filter (Aggregator.in_range range) events).
Proof.
  rewrite aggregate_unfold.
  apply grid_sum_cells; [apply Pos2Nat.is_pos|].
  intros e He. apply column_in_grid; [|apply Pos2Nat.is_pos].
  now apply extent_covers.
Qed.

Lemma aggregate_shape (events : list Trade) (range : XRange)
    (resolution : Aggregator.Resolution) (field : Aggregator.Field)
    (offset : nat) :
  List.length (Aggregator.aggregate events range resolution field offset)
  = Aggregator.height resolution /\
  Forall (fun row => List.length row = Aggregator.width resolution)
         (Aggregator.aggregate events range resolution field offset).
Proof.
  rewrite aggregate_unfold. split.
  - now rewrite length_map, length_seq.
  - apply Forall_forall. intros row Hrow. apply in_map_iff in Hrow.
    destruct Hrow as (r & <- & _). now rewrite length_map, length_seq.
Qed.

Lemma map_const_seq {A : Type} (c : A) (n : nat) :
  forall start : nat, map (fun _ => c) (seq start n) = repeat c n.
Proof.
  induction n as [|n IH]; intros start; simpl; [reflexivity|].
  now rewrite IH.
Qed.

Lemma aggregate_row_lengths (events : list Trade) (range : XRange)
    (resolution : Aggregator.Resolution) (field : Aggregator.Field)
    (offset : nat) :
  map (@List.length Z)
      (Aggregator.aggregate events range resolution field offset)
  = repeat (Aggregator.width resolution) (Aggregator.height resolution).
Proof.
  rewrite aggregate_unfold, map_map.
  rewrite (map_ext _ (fun _ => Aggregator.width resolution)).
  - apply map_const_seq.
  - intros row. now rewrite length_map, length_seq.
Qed.

(** The scenario of the specification: over the range from 0 to 2 at
    width 2 the sizes of A fall into the cells 10 and 5 and B has no event;
    over the range from 0 to 3 at width 3 the event of B is in the last
    cell. *)
Example scenario_grids :
  Aggregator.spikes_aggregate (Aggregator.mkResolution 2 1)
    (select (Spikes_of scenario) "A") (Some (Some 0, Some 2)) 0
    (ds_sum "size") = [[10; 5]] /\
  Aggregator.spikes_aggregate (Aggregator.mkResolution 2 1)
    (select (Spikes_of scenario) "B") (Some (Some 0, Some 2)) 0
    (ds_sum "size") = [[0; 0]] /\
  Aggregator.spikes_aggregate (Aggregator.mkResolution 3 1)
    (select (Spikes_of scenario) "B") (Some (Some 0, Some 3)) 0
    (ds_sum "size") = [[0; 0; 7]].
Proof. repeat split; reflexivity. Qed.

(** ** Properties of the aggregation contract *)

(** C2. For every sequence of events, every range, every resolution and
    every band the cells of the grid returned by [aggregate] sum to the
    statistic of the events whose timestamp lies in the range: to their
    number for the count field, to the sum of their sizes for the sum over
    the size column, and to the reduction of the field in general; no
    event in the range is left out of the grid. *)
Theorem aggregate_conserves_mass :
  forall (events : list Trade) (range : XRange)
         (resolution : Aggregator.Resolution) (offset : nat),
    let in_view := filter (Aggregator.in_range range) events in
    (forall e, In e in_view <->
               In e events /\ lies_in range (timestamp e)) /\
    (forall field : Aggregator.Field,
        Aggregator.grid_sum
          (Aggregator.aggregate events range resolution field offset)
        = Aggregator.reduce field in_view) /\
    Aggregator.grid_sum
      (Aggregator.aggregate events range resolution Aggregator.count offset)
    = Z.of_nat (List.length in_view) /\
    Aggregator.grid_sum
      (Aggregator.aggregate events range resolution
         (Aggregator.sum (Aggregator.column_value "size")) offset)
    = Aggregator.total (map size in_view).
Proof.
  intros events range resolution offset in_view.
  split; [|split; [|split]].
  - intros e. subst in_view. rewrite filter_In.
    unfold Aggregator.in_range.
    rewrite (in_range_lies_in range (timestamp e)). reflexivity.
  - intros field. apply aggregate_mass.
  - rewrite aggregate_mass. apply reduce_count.
  - rewrite aggregate_mass. apply reduce_sum_size.
Qed.

(** The grid of three events in the band of offset 2, on a grid of four
    columns and two rows, holds all three. *)
Example band_beyond_rows :
  Aggregator.grid_sum
    (Aggregator.aggregate scenario None small Aggregator.count 2) = 3.
Proof. reflexivity. Qed.

(** C6. The grid returned by [aggregate] has the dimensions of the
    resolution, whatever the events are: [height] rows, each of [width]
    cells.  For the canvas of the OSM notebook that is 450 rows of 900
    cells, for no event as for any number of events. *)
Theorem grid_has_fixed_shape :
  forall (events : list Trade) (range : XRange)
         (resolution : Aggregator.Resolution) (field : Aggregator.Field)
         (offset : nat),
    List.length (Aggregator.aggregate events range resolution field offset)
    = Aggregator.height resolution /\
    Forall (fun row => List.length row = Aggregator.width resolution)
           (Aggregator.aggregate events range resolution field offset) /\
    map (@List.length Z)
        (Aggregator.aggregate events range resolution field offset)
    = map (@List.length Z)
          (Aggregator.aggregate [] range resolution field offset) /\
    List.length (Aggregator.aggregate events range OSM.cvs field offset)
    = 450%nat /\
    Forall (fun row => List.length row = 900%nat)
           (Aggregator.aggregate events range OSM.cvs field offset).
Proof.
  intros events range resolution field offset.
  destruct (aggregate_shape events range resolution field offset)
    as [Hrows Hcols].
  destruct (aggregate_shape events range OSM.cvs field offset)
    as [Hrows' Hcols'].
  split; [exact Hrows|]. split; [exact Hcols|]. split.
  - now rewrite !aggregate_row_lengths.
  - split; [exact Hrows'|exact Hcols'].
Qed.

(** * Further properties of the notebooks *)

(** ** The hover filter *)

Lemma filter_idem {A : Type} (f : A -> bool) (l : list A) :
  filter f (filter f l) = filter f l.
Proof.
  apply filter_all. intros x Hx. apply filter_In in Hx. tauto.
Qed.

Lemma filter_length_mono {A : Type} (f g : A -> bool) (l : list A) :
  (forall x, In x l -> f x = true -> g x = true) ->
  (List.length (filter f l) <= List.length (filter g l))%nat.
Proof.
  induction l as [|a l IH]; intros Himp; simpl; [lia|].
  assert (IH' : (List.length (filter f l) <= List.length (filter g l))%nat).
  { apply IH. intros x Hx. apply Himp. now right. }
  destruct (f a) eqn:Hf.
  - rewrite (Himp a (or_introl eq_refl) Hf). simpl. lia.
  - destruct (g a); simpl; lia.
Qed.

Lemma len_xrange_filter_at (T : nat) (s : Spikes) (x_range : XRange) :
  (0 < T)%nat -> (len (xrange_filter_at T s x_range) < T)%nat.
Proof.
  intros HT. unfold xrange_filter_at.
  destruct (Nat.ltb_spec (len (ranged_of s x_range)) T) as [Hlt|Hge];
    unfold len in *; simpl; [exact Hlt|exact HT].
Qed.

Lemma In_xrange_filter_at (T : nat) (s : Spikes) (x_range : XRange)
    (e : Trade) :
  In e (data (xrange_filter_at T s x_range)) ->
  In e (data s) /\ lies_in x_range (timestamp e).
Proof.
  unfold xrange_filter_at.
  destruct (Nat.ltb (len (ranged_of s x_range)) T); simpl.
  - apply In_ranged_of.
  - contradiction.
Qed.

Lemma xrange_filter_at_idem (T : nat) (s : Spikes) (x_range : XRange) :
  (0 < T)%nat ->
  xrange_filter_at T (xrange_filter_at T s x_range) x_range
  = xrange_filter_at T s x_range.
Proof.
  intros HT.
  pose proof (len_xrange_filter_at T s x_range HT) as Hlen.
  set (out := xrange_filter_at T s x_range) in *.
  assert (Hdata : data (ranged_of out x_range) = data out).
  { rewrite data_ranged_of. unfold out, xrange_filter_at.
    destruct (Nat.ltb (len (ranged_of s x_range)) T); simpl;
      [|reflexivity].
    rewrite data_ranged_of. apply filter_idem. }
  assert (Hopts : options (ranged_of out x_range) = options out).
  { unfold ranged_of. destruct (unpack x_range). reflexivity. }
  unfold xrange_filter_at at 1.
  replace (Nat.ltb (len (ranged_of out x_range)) T) with true.
  - unfold opts_spike. rewrite Hdata, Hopts.
    unfold out, xrange_filter_at, opts_spike. reflexivity.
  - symmetry. apply Nat.ltb_lt. unfold len in *. now rewrite Hdata.
Qed.

Lemma len_ranged_within (s : Spikes) (inner outer : XRange) :
  within inner outer ->
  (len (ranged_of s inner) <= len (ranged_of s outer))%nat.
Proof.
  intros Hin. unfold len. rewrite !data_ranged_of.
  apply filter_length_mono. intros e _ He.
  apply in_range_lies_in. apply Hin. now apply in_range_lies_in.
Qed.

(** X1. The hover filter never hands the browser as many spikes as its
    cut-off: whatever the element and the range, the result holds fewer
    than 200 rows in IEX_stocks and fewer than 600 in IEX_trading, and
    every row it holds is a row of the element whose timestamp lies in the
    range. *)
Theorem hover_spikes_below_cutoff :
  forall (s : Spikes) (x_range : XRange),
    (len (IEX_stocks.xrange_filter s x_range) < 200)%nat /\
    (len (IEX_trading.xrange_filter s x_range) < 600)%nat /\
    (forall e, In e (data (IEX_stocks.xrange_filter s x_range)) ->
               In e (data s) /\ lies_in x_range (timestamp e)) /\
    (forall e, In e (data (IEX_trading.xrange_filter s x_range)) ->
               In e (data s) /\ lies_in x_range (timestamp e)).
Proof.
  intros s x_range.
  rewrite xrange_filter_stocks_at, xrange_filter_trading_at.
  split; [apply len_xrange_filter_at; lia|].
  split; [apply len_xrange_filter_at; lia|].
  split; intros e; apply In_xrange_filter_at.
Qed.

(** X2. Filtering is idempotent: the hover filter applied to its own
    result at the same range returns that result, rows and options alike,
    in both notebooks. *)
Theorem hover_filter_idempotent :
  forall (s : Spikes) (x_range : XRange),
    IEX_stocks.xrange_filter (IEX_stocks.xrange_filter s x_range) x_range
    = IEX_stocks.xrange_filter s x_range /\
    IEX_trading.xrange_filter (IEX_trading.xrange_filter s x_range) x_range
    = IEX_trading.xrange_filter s x_range.
Proof.
  intros s x_range. split.
  - rewrite !xrange_filter_stocks_at. apply xrange_filter_at_idem. lia.
  - rewrite !xrange_filter_trading_at. apply xrange_filter_at_idem. lia.
Qed.

(** X3. Zooming in never switches the hover layer off: when the slice of a
    range is below the cut-off, so that the filter returns it whole, the
    filter returns the whole slice of every range within that range; and
    when the filter returns nothing for a range because its slice reaches
    the cut-off, it returns nothing for every range that contains it. *)
Theorem hover_survives_zooming_in :
  forall (s : Spikes) (inner outer : XRange),
    within inner outer ->
    ((len (ranged_of s outer) < 200)%nat ->
     data (IEX_stocks.xrange_filter s inner) = data (ranged_of s inner)) /\
    ((200 <= len (ranged_of s inner))%nat ->
     data (IEX_stocks.xrange_filter s outer) = []) /\
    ((len (ranged_of s outer) < 600)%nat ->
     data (IEX_trading.xrange_filter s inner) = data (ranged_of s inner)) /\
    ((600 <= len (ranged_of s inner))%nat ->
     data (IEX_trading.xrange_filter s outer) = []).
Proof.
  intros s inner outer Hin.
  pose proof (len_ranged_within s inner outer Hin) as Hle.
  rewrite !xrange_filter_stocks_at, !xrange_filter_trading_at.
  repeat split; intros H.
  - apply data_xrange_filter_below. lia.
  - apply data_xrange_filter_reached. lia.
  - apply data_xrange_filter_below. lia.
  - apply data_xrange_filter_reached. lia.
Qed.

Lemma hover_survives_zooming_in_witness :
  data (IEX_stocks.xrange_filter (Spikes_of (trades_of "PINS" 250))
          (Some (Some 10, Some 20)))
  = data (ranged_of (Spikes_of (trades_of "PINS" 250))
            (Some (Some 10, Some 20))).
Proof.
  apply (hover_survives_zooming_in (Spikes_of (trades_of "PINS" 250))
           (Some (Some 10, Some 20)) (Some (Some 0, Some 150))).
  - unfold within, lies_in. simpl. lia.
  - apply Nat.ltb_lt. vm_compute. reflexivity.
Defined.

(** ** Exchange time *)

Lemma filter_map_swap {A B : Type} (f : B -> bool) (g : A -> B)
    (l : list A) :
  filter f (map g l) = map g (filter (fun x => f (g x)) l).
Proof.
  induction l as [|a l IH]; simpl; [reflexivity|].
  destruct (f (g a)); simpl; now rewrite IH.
Qed.

Lemma in_slice_utc (low high : option Z) (t : Z) :
  in_slice low high (t - 4 * 3600 * 1000000000)
  = in_slice (utc_bound low) (utc_bound high) t.
Proof.
  unfold in_slice, utc_bound. f_equal.
  - destruct low as [l|]; simpl; [|reflexivity].
    destruct (Z.leb_spec l (t - 4 * 3600 * 1000000000)),
      (Z.leb_spec (l + 4 * 3600 * 1000000000) t); try reflexivity; lia.
  - destruct high as [h|]; simpl; [|reflexivity].
    destruct (Z.ltb_spec (t - 4 * 3600 * 1000000000) h),
      (Z.ltb_spec t (h + 4 * 3600 * 1000000000)); try reflexivity; lia.
Qed.

Lemma ascending_to_exchange_time (df : list Trade) :
  ascending df -> ascending (to_exchange_time df).
Proof.
  unfold ascending. intros Hs.
  induction Hs as [|a l Hl IH Hhd]; simpl; constructor; [exact IH|].
  destruct Hhd as [|b l Hab]; simpl; constructor. simpl. lia.
Qed.

Lemma has_symbol_to_exchange_time (df : list Trade) (sym : string) :
  has_symbol (Spikes_of (to_exchange_time df)) sym
  = has_symbol (Spikes_of df) sym.
Proof.
  unfold has_symbol. simpl.
  induction df as [|e df IH]; simpl; [reflexivity|]. now rewrite IH.
Qed.

Lemma load_df_returns (df rows : list Trade) :
  load_df df = Some rows ->
  rows = to_exchange_time df /\
  forall e, In e df ->
            - 2 ^ 63 < timestamp e - 4 * 3600 * 1000000000 /\
            timestamp e < 2 ^ 63.
Proof.
  unfold load_df.
  destruct (forallb (fun e => stamp_carried (timestamp e)) df) eqn:Hall;
    [|discriminate].
  intros H. injection H as <-. split; [reflexivity|].
  intros e He. rewrite forallb_forall in Hall. specialize (Hall e He).
  unfold stamp_carried in Hall. apply andb_prop in Hall.
  destruct Hall as [Hlow Hhigh].
  apply Z.ltb_lt in Hlow. apply Z.ltb_lt in Hhigh. lia.
Qed.

(** X5. Where the cell that loads the file returns, no stamp leaves the
    int64 range on its way to exchange time, and the move commutes with
    the queries: a slice of the loaded rows is the shift of the slice of
    the rows of the file between the bounds four hours later; a selection
    of the loaded rows returns or raises as the selection of the rows of
    the file does, and what it returns is the shift of that selection; the
    load keeps the number of rows, the sum of their sizes and, for rows in
    ascending order, the order. *)
Theorem exchange_time_commutes_with_queries :
  forall (df rows : list Trade) (low high : option Z) (sym : string),
    load_df df = Some rows ->
    (forall e, In e rows -> - 2 ^ 63 < timestamp e < 2 ^ 63) /\
    data (getitem (Spikes_of rows) low high)
    = to_exchange_time
        (data (getitem (Spikes_of df) (utc_bound low) (utc_bound high))) /\
    select_or_raise (Spikes_of rows) sym
    = option_map
        (fun selection =>
           mkSpikes (to_exchange_time (data selection)) (options selection))
        (select_or_raise (Spikes_of df) sym) /\
    List.length rows = List.length df /\
    size_sum rows = size_sum df /\
    (ascending df -> ascending rows).
Proof.
  intros df rows low high sym Hload.
  destruct (load_df_returns df rows Hload) as [-> Hstamps].
  split; [|split; [|split; [|split; [|split]]]].
  - intros e He. unfold to_exchange_time in He. apply in_map_iff in He.
    destruct He as (x & <- & Hx). simpl.
    specialize (Hstamps x Hx). lia.
  - simpl. unfold to_exchange_time. rewrite filter_map_swap. simpl.
    f_equal. apply filter_ext. intros e. apply in_slice_utc.
  - unfold select_or_raise. rewrite has_symbol_to_exchange_time.
    destruct (has_symbol (Spikes_of df) sym); [|reflexivity].
    simpl. unfold select. simpl. f_equal. f_equal.
    unfold to_exchange_time. rewrite filter_map_swap. reflexivity.
  - unfold to_exchange_time. apply length_map.
  - clear. induction df as [|e df IH]; simpl; [reflexivity|]. now rewrite IH.
  - apply ascending_to_exchange_time.
Qed.

Lemma exchange_time_commutes_with_queries_witness :
  ascending (to_exchange_time day_df).
Proof.
  apply (exchange_time_commutes_with_queries day_df (to_exchange_time day_df)
           None None "PINS").
  - reflexivity.
  - unfold ascending, day_df. repeat constructor; simpl; lia.
Defined.

(** ** The session after the notebook functions *)

Lemma assign_assign (h : list RangeX) (r : nat) (a b : RangeX) :
  assign (assign h r a) r b = assign h r b.
Proof.
  revert r. induction h as [|x h IH]; intros [|r]; simpl;
    try reflexivity. now rewrite IH.
Qed.

Lemma length_assign (h : list RangeX) (r : nat) (v : RangeX) :
  List.length (assign h r v) = List.length h.
Proof.
  revert r. induction h as [|x h IH]; intros [|r]; simpl;
    try reflexivity. now rewrite IH.
Qed.

Lemma nth_assign_other (h : list RangeX) (r r' : nat) (v : RangeX) :
  r' <> r -> nth r' (assign h r v) unset = nth r' h unset.
Proof.
  revert r r'. induction h as [|x h IH]; intros [|r] [|r'] Hne; simpl;
    try reflexivity; try congruence.
  apply IH. congruence.
Qed.

Lemma set_source_twice (g : Globals) (r : nat) (s1 s2 : Spikes) :
  snd (set_source r s2 (snd (set_source r s1 g)))
  = snd (set_source r s2 g).
Proof.
  unfold set_source, deref. cbn [snd spikes streams].
  rewrite assign_assign. f_equal. f_equal. f_equal.
  now apply x_range_assign_frame.
Qed.

Lemma nth_error_enumerate_from {A : Type} (l : list A) :
  forall (start i : nat),
    nth_error (enumerate_from start l) i
    = option_map (fun x => ((start + i)%nat, x)) (nth_error l i).
Proof.
  unfold enumerate_from.
  induction l as [|a l IH]; intros start [|i]; simpl; try reflexivity.
  - now rewrite Nat.add_0_r.
  - rewrite IH. now rewrite Nat.add_succ_r.
Qed.

Lemma length_enumerate {A : Type} (l : list A) :
  List.length (enumerate l) = List.length l.
Proof.
  unfold enumerate, enumerate_from.
  rewrite length_combine, length_seq. apply Nat.min_id.
Qed.

Section Session.

Context {Image : Type}.
Variable spikes_aggregate : Spikes -> XRange -> nat -> Reduction -> Image.

Lemma visualize_from_cons (symbol : string) (rest : list string)
    (offset : nat) (g : Globals) :
  let g1 := snd (set_source IEX_stocks.range_stream
                   (select (spikes g) symbol) g) in
  IEX_stocks.visualize_from spikes_aggregate offset (symbol :: rest) g
  = (symbol_overlay spikes_aggregate (spikes g) (offset, symbol)
     :: fst (IEX_stocks.visualize_from spikes_aggregate (S offset) rest g1),
     snd (IEX_stocks.visualize_from spikes_aggregate (S offset) rest g1)).
Proof.
  intros g1. cbn [IEX_stocks.visualize_from]. unfold bind.
  rewrite visualize_symbol_run. fold g1.
  destruct (IEX_stocks.visualize_from spikes_aggregate (S offset) rest g1).
  reflexivity.
Qed.

Lemma visualize_from_session (symbols : list string) :
  forall (offset : nat) (g : Globals),
    snd (IEX_stocks.visualize_from spikes_aggregate offset symbols g)
    = rebound g symbols.
Proof.
  induction symbols as [|symbol rest IH]; intros offset g; [reflexivity|].
  rewrite visualize_from_cons. cbn [snd]. rewrite IH.
  destruct rest as [|next rest]; [reflexivity|].
  unfold rebound. cbn [spikes set_source snd].
  change (last (symbol :: next :: rest) "") with (last (next :: rest) "").
  apply (set_source_twice g IEX_stocks.range_stream).
Qed.

Lemma overlay_symbols_value (symbols : list string) (g : Globals) :
  IEX_stocks.visualize_symbols spikes_aggregate symbols g
  = (IEX_stocks.mkCollated
       (map (symbol_overlay spikes_aggregate (spikes g)) (enumerate symbols))
       (yticks_of symbols),
     rebound g symbols).
Proof.
  unfold IEX_stocks.visualize_symbols, IEX_stocks.overlay_symbols, bind.
  pose proof (visualize_from_run spikes_aggregate symbols 0 g) as Hrun.
  pose proof (visualize_from_session symbols 0 g) as Hses.
  cbn zeta in Hrun.
  destruct (IEX_stocks.visualize_from spikes_aggregate 0 symbols g)
    as [its g1].
  cbn [fst snd] in *. destruct Hrun as (Hits & _). subst its g1.
  reflexivity.
Qed.

(** X6. Building the overlay of a list of symbols touches nothing in the
    session but the source of [range_stream]: the global [spikes] is the
    same, no stream is created, every other stream is as it was, and the
    range [range_stream] holds is as it was. *)
Theorem overlay_symbols_only_rebinds_source :
  forall (symbols : list string) (g : Globals),
    let g' := snd (IEX_stocks.overlay_symbols spikes_aggregate symbols g) in
    spikes g' = spikes g /\
    List.length (streams g') = List.length (streams g) /\
    (forall r : nat, r <> IEX_stocks.range_stream -> deref g' r = deref g r) /\
    x_range (deref g' IEX_stocks.range_stream)
    = x_range (deref g IEX_stocks.range_stream).
Proof.
  intros symbols g g'.
  assert (Hg' : g' = rebound g symbols).
  { subst g'. change (IEX_stocks.overlay_symbols spikes_aggregate symbols g)
      with (IEX_stocks.visualize_symbols spikes_aggregate symbols g).
    now rewrite overlay_symbols_value. }
  rewrite Hg'. destruct symbols as [|s rest]; [repeat split|].
  unfold rebound. repeat split.
  - unfold set_source. cbn. apply length_assign.
  - intros r Hr. unfold set_source, deref. cbn [snd streams].
    now apply nth_assign_other.
  - apply x_range_set_source.
Qed.



End Session.



(** ** The served dashboard *)

Lemma rebound_spikes (g : Globals) (symbols : list string) :
  spikes (rebound g symbols) = spikes g.
Proof. destruct symbols; reflexivity. Qed.

Lemma rebound_x_range (g : Globals) (symbols : list string) :
  x_range (deref (rebound g symbols) IEX_stocks.range_stream)
  = x_range (deref g IEX_stocks.range_stream).
Proof.
  destruct symbols as [|s rest]; [reflexivity|].
  unfold rebound. apply x_range_set_source.
Qed.

Lemma rebound_set_x_range (g : Globals) (xr : XRange)
    (symbols : list string) :
  rebound (set_x_range IEX_stocks.range_stream xr g) symbols
  = set_x_range IEX_stocks.range_stream xr (rebound g symbols).
Proof.
  destruct symbols as [|s rest]; [reflexivity|].
  destruct g as [sp [|x h]]; reflexivity.
Qed.

Lemma rebound_rebound (g : Globals) (first second : list string) :
  second <> [] ->
  rebound (rebound g first) second = rebound g second.
Proof.
  intros Hne. destruct second as [|s rest]; [congruence|].
  destruct first as [|f more]; [reflexivity|].
  unfold rebound. cbn [spikes set_source snd].
  apply (set_source_twice g IEX_stocks.range_stream).
Qed.

Lemma set_x_range_twice (g : Globals) (a b : XRange) :
  set_x_range IEX_stocks.range_stream b
    (set_x_range IEX_stocks.range_stream a g)
  = set_x_range IEX_stocks.range_stream b g.
Proof. destruct g as [sp [|x h]]; reflexivity. Qed.

Section Served.

Context {Image : Type}.
Variable spikes_aggregate : Spikes -> XRange -> nat -> Reduction -> Image.

Lemma step_selection (d : IEX_stocks.Dashboard Image)
    (symbols : list string) :
  IEX_stocks.step spikes_aggregate d (IEX_stocks.SelectionChange symbols)
  = IEX_stocks.mkDashboard (rebound (IEX_stocks.globals d) symbols) symbols
      (IEX_stocks.mkCollated
         (map (symbol_overlay spikes_aggregate
                 (spikes (IEX_stocks.globals d)))
              (enumerate symbols))
         (yticks_of symbols)).
Proof.
  unfold IEX_stocks.step. now rewrite overlay_symbols_value.
Qed.

Lemma serve_value (df : list Trade) :
  IEX_stocks.serve spikes_aggregate df
  = IEX_stocks.mkDashboard
      (rebound (IEX_stocks.startup df) IEX_stocks.cross_selector_value)
      IEX_stocks.cross_selector_value
      (IEX_stocks.mkCollated
         (map (symbol_overlay spikes_aggregate
                 (spikes (IEX_stocks.startup df)))
              (enumerate IEX_stocks.cross_selector_value))
         (yticks_of IEX_stocks.cross_selector_value)).
Proof.
  unfold IEX_stocks.serve. now rewrite overlay_symbols_value.
Qed.

(** X11. Zooming and selecting commute: a range change followed by a
    selection change leaves the dashboard in the same state as the
    selection change followed by the range change. *)
Theorem zoom_and_selection_commute :
  forall (d : IEX_stocks.Dashboard Image) (r : option Z * option Z)
         (symbols : list string),
    IEX_stocks.step spikes_aggregate
      (IEX_stocks.step spikes_aggregate d (IEX_stocks.RangeChange r))
      (IEX_stocks.SelectionChange symbols)
    = IEX_stocks.step spikes_aggregate
        (IEX_stocks.step spikes_aggregate d
           (IEX_stocks.SelectionChange symbols))
        (IEX_stocks.RangeChange r).
Proof.
  intros d r symbols. rewrite !step_selection.
  cbn [IEX_stocks.step IEX_stocks.globals IEX_stocks.value IEX_stocks.shown].
  rewrite rebound_set_x_range. reflexivity.
Qed.

End Served.

(** ** The dashboard as the session runs it *)

Lemma built_prefix_all (store : Spikes) (symbols : list string) :
  forallb (has_symbol store) symbols = true ->
  built_prefix store symbols = symbols.
Proof.
  induction symbols as [|sym rest IH]; simpl; [reflexivity|].
  intros H. apply andb_prop in H. destruct H as [Hs Hrest].
  rewrite Hs. now rewrite IH.
Qed.

Lemma built_prefix_buildable (store : Spikes) (symbols : list string) :
  buildable store symbols = true -> built_prefix store symbols = symbols.
Proof.
  destruct symbols as [|sym rest]; [discriminate|].
  apply built_prefix_all.
Qed.

Lemma rebound_x_range_any (g : Globals) (symbols : list string) (r : nat) :
  x_range (deref (rebound g symbols) r) = x_range (deref g r).
Proof.
  destruct symbols as [|s rest]; [reflexivity|].
  destruct (Nat.eq_dec r IEX_stocks.range_stream) as [->|Hne].
  - apply rebound_x_range.
  - unfold rebound, set_source, deref. cbn [snd streams].
    now rewrite nth_assign_other.
Qed.

Lemma rebound_streams_nonempty (g : Globals) (symbols : list string) :
  streams g <> [] -> streams (rebound g symbols) <> [].
Proof.
  destruct symbols as [|s rest]; [trivial|].
  intros Hne. unfold rebound, set_source. cbn [snd streams].
  now apply assign_nonempty.
Qed.

Lemma render_overlay_rebound {Image : Type} (g : Globals)
    (symbols : list string) (o : Overlay Image) :
  render_overlay (rebound g symbols) o = render_overlay g o.
Proof.
  unfold render_overlay, render. now rewrite !rebound_x_range_any.
Qed.

Lemma last_built_of_buildable (store : Spikes)
    (evs : list IEX_stocks.Event) :
  buildable store (last_selection evs) = true ->
  last_built store evs = last_selection evs.
Proof.
  induction evs as [|ev evs IH] using rev_ind; [reflexivity|].
  unfold last_built, last_selection in *. rewrite !fold_left_app.
  cbn [fold_left]. destruct ev as [r|symbols]; [exact IH|].
  intros Hb. now rewrite Hb.
Qed.

Lemma last_built_buildable (store : Spikes) (evs : list IEX_stocks.Event) :
  buildable store IEX_stocks.cross_selector_value = true ->
  buildable store (last_built store evs) = true.
Proof.
  unfold last_built. generalize IEX_stocks.cross_selector_value.
  induction evs as [|ev evs IH]; intros acc Hacc; [exact Hacc|].
  cbn [fold_left]. apply IH. destruct ev as [r|symbols]; [exact Hacc|].
  destruct (buildable store symbols) eqn:Hb; [exact Hb|exact Hacc].
Qed.

Section Running.

Context {Image : Type}.
Variable spikes_aggregate : Spikes -> XRange -> nat -> Reduction -> Image.

Lemma live_visualize_symbol_run (symbol : string) (offset : nat)
    (g : Globals) :
  Live.visualize_symbol spikes_aggregate symbol offset g
  = if has_symbol (spikes g) symbol
    then (Some (symbol_overlay spikes_aggregate (spikes g) (offset, symbol)),
          snd (set_source IEX_stocks.range_stream
                 (select (spikes g) symbol) g))
    else (None, g).
Proof.
  unfold Live.visualize_symbol, bind_raising, lift, of_option,
    select_or_raise, the_spikes.
  destruct (has_symbol (spikes g) symbol); reflexivity.
Qed.

Lemma live_visualize_from_run (symbols : list string) :
  forall (offset : nat) (g : Globals),
    Live.visualize_from spikes_aggregate offset symbols g
    = ((if forallb (has_symbol (spikes g)) symbols
        then Some (map (symbol_overlay spikes_aggregate (spikes g))
                       (enumerate_from offset symbols))
        else None),
       rebound g (built_prefix (spikes g) symbols)).
Proof.
  induction symbols as [|symbol rest IH]; intros offset g; [reflexivity|].
  cbn [Live.visualize_from forallb built_prefix]. unfold bind_raising.
  rewrite live_visualize_symbol_run.
  destruct (has_symbol (spikes g) symbol) eqn:Hs; [|reflexivity].
  rewrite IH. cbn [spikes set_source snd andb].
  assert (Hses :
            rebound
              (mkGlobals (spikes g)
                 (assign (streams g) IEX_stocks.range_stream
                    (mkRangeX (Some (select (spikes g) symbol))
                       (x_range (deref g IEX_stocks.range_stream)))))
              (built_prefix (spikes g) rest)
            = rebound g (symbol :: built_prefix (spikes g) rest)).
  { destruct (built_prefix (spikes g) rest) as [|next more];
      [reflexivity|].
    unfold rebound. cbn [spikes].
    change (last (symbol :: next :: more) "") with (last (next :: more) "").
    apply (set_source_twice g IEX_stocks.range_stream). }
  rewrite Hses.
  destruct (forallb (has_symbol (spikes g)) rest); reflexivity.
Qed.

Lemma live_visualize_symbols_run (symbols : list string) (g : Globals) :
  Live.visualize_symbols spikes_aggregate symbols g
  = ((if buildable (spikes g) symbols
      then Some (IEX_stocks.mkCollated
                   (map (symbol_overlay spikes_aggregate (spikes g))
                        (enumerate symbols))
                   (yticks_of symbols))
      else None),
     rebound g (built_prefix (spikes g) symbols)).
Proof.
  unfold Live.visualize_symbols, Live.overlay_symbols, bind_raising.
  rewrite live_visualize_from_run.
  destruct symbols as [|symbol rest]; [reflexivity|].
  cbn [buildable].
  destruct (forallb (has_symbol (spikes g)) (symbol :: rest)); reflexivity.
Qed.

Lemma live_step_selection (d : IEX_stocks.Dashboard Image)
    (symbols : list string) :
  let g := IEX_stocks.globals d in
  Live.step spikes_aggregate d (IEX_stocks.SelectionChange symbols)
  = IEX_stocks.mkDashboard (rebound g (built_prefix (spikes g) symbols))
      symbols
      (if buildable (spikes g) symbols
       then IEX_stocks.mkCollated
              (map (symbol_overlay spikes_aggregate (spikes g))
                   (enumerate symbols))
              (yticks_of symbols)
       else IEX_stocks.shown d).
Proof.
  intros g. unfold Live.step. rewrite live_visualize_symbols_run. fold g.
  destruct (buildable (spikes g) symbols); reflexivity.
Qed.

Lemma live_step_buildable (d : IEX_stocks.Dashboard Image)
    (symbols : list string) :
  buildable (spikes (IEX_stocks.globals d)) symbols = true ->
  Live.step spikes_aggregate d (IEX_stocks.SelectionChange symbols)
  = IEX_stocks.step spikes_aggregate d (IEX_stocks.SelectionChange symbols).
Proof.
  intros Hb. rewrite live_step_selection, step_selection. cbn zeta.
  rewrite Hb. now rewrite built_prefix_buildable.
Qed.

Lemma live_serve_value (df : list Trade) :
  Live.serve spikes_aggregate df
  = if forallb (fun e => stamp_carried (timestamp e)) df
       && buildable (Spikes_of (to_exchange_time df))
            IEX_stocks.cross_selector_value
    then Some (IEX_stocks.serve spikes_aggregate df)
    else None.
Proof.
  unfold Live.serve, load_df.
  destruct (forallb (fun e => stamp_carried (timestamp e)) df);
    [|reflexivity].
  rewrite live_visualize_symbols_run. cbn [spikes andb].
  destruct (buildable (Spikes_of (to_exchange_time df))
              IEX_stocks.cross_selector_value) eqn:Hb; [|reflexivity].
  rewrite serve_value. rewrite (built_prefix_buildable _ _ Hb).
  reflexivity.
Qed.

Lemma serve_showing (df : list Trade) (d0 : IEX_stocks.Dashboard Image) :
  Live.serve spikes_aggregate df = Some d0 ->
  let store := Spikes_of (to_exchange_time df) in
  load_df df = Some (to_exchange_time df) /\
  buildable store IEX_stocks.cross_selector_value = true /\
  showing spikes_aggregate store IEX_stocks.cross_selector_value d0 /\
  IEX_stocks.value d0 = IEX_stocks.cross_selector_value /\
  IEX_stocks.current_range d0 = None.
Proof.
  intros Hserve store. rewrite live_serve_value in Hserve.
  unfold load_df.
  destruct (forallb (fun e => stamp_carried (timestamp e)) df);
    [|discriminate].
  cbn [andb] in Hserve. fold store in Hserve.
  destruct (buildable store IEX_stocks.cross_selector_value);
    [|discriminate].
  injection Hserve as <-.
  split; [reflexivity|]. split; [reflexivity|].
  pose proof (serve_shows_default spikes_aggregate df) as Hco.
  rewrite serve_value in *. split; [exact Hco|].
  split; reflexivity.
Qed.

Lemma step_showing (store : Spikes) (built : list string)
    (d : IEX_stocks.Dashboard Image) (ev : IEX_stocks.Event) :
  showing spikes_aggregate store built d ->
  let d' := Live.step spikes_aggregate d ev in
  showing spikes_aggregate store
    match ev with
    | IEX_stocks.RangeChange _ => built
    | IEX_stocks.SelectionChange symbols =>
        if buildable store symbols then symbols else built
    end d' /\
  IEX_stocks.value d'
  = match ev with
    | IEX_stocks.RangeChange _ => IEX_stocks.value d
    | IEX_stocks.SelectionChange symbols => symbols
    end /\
  IEX_stocks.current_range d'
  = match ev with
    | IEX_stocks.RangeChange r => Some r
    | IEX_stocks.SelectionChange _ => IEX_stocks.current_range d
    end.
Proof.
  intros (Hsp & Hne & Hit) d'. subst d'. destruct ev as [r|symbols].
  - split; [|split]; [|reflexivity|].
    + unfold showing; cbn. repeat split; auto. now apply assign_nonempty.
    + unfold IEX_stocks.current_range. cbn.
      now apply x_range_set_x_range.
  - rewrite live_step_selection. cbn zeta. rewrite Hsp.
    split; [|split]; [|reflexivity|].
    + unfold showing; cbn. rewrite rebound_spikes.
      split; [exact Hsp|]. split.
      * now apply rebound_streams_nonempty.
      * destruct (buildable store symbols); [reflexivity|exact Hit].
    + unfold IEX_stocks.current_range. cbn. apply rebound_x_range.
Qed.

Lemma run_showing (store : Spikes) (evs : list IEX_stocks.Event) :
  forall (d : IEX_stocks.Dashboard Image) (built : list string),
    showing spikes_aggregate store built d ->
    let d' := Live.run spikes_aggregate d evs in
    showing spikes_aggregate store
      (fold_left (fun acc ev =>
                    match ev with
                    | IEX_stocks.RangeChange _ => acc
                    | IEX_stocks.SelectionChange symbols =>
                        if buildable store symbols then symbols else acc
                    end) evs built) d' /\
    IEX_stocks.value d'
    = fold_left (fun acc ev =>
                   match ev with
                   | IEX_stocks.RangeChange _ => acc
                   | IEX_stocks.SelectionChange symbols => symbols
                   end) evs (IEX_stocks.value d) /\
    IEX_stocks.current_range d'
    = fold_left (fun acc ev =>
                   match ev with
                   | IEX_stocks.RangeChange r => Some r
                   | IEX_stocks.SelectionChange _ => acc
                   end) evs (IEX_stocks.current_range d).
Proof.
  induction evs as [|ev evs IH]; intros d built Hd;
    [split; [exact Hd|split; reflexivity]|].
  cbn [Live.run fold_left].
  change (fold_left (Live.step spikes_aggregate) evs
            (Live.step spikes_aggregate d ev))
    with (Live.run spikes_aggregate (Live.step spikes_aggregate d ev) evs).
  destruct (step_showing store built d ev Hd) as (Hs & Hv & Hr).
  destruct (IH _ _ Hs) as (Hs' & Hv' & Hr').
  split; [|split].
  - destruct ev; exact Hs'.
  - rewrite Hv', Hv. destruct ev; reflexivity.
  - rewrite Hr', Hr. destruct ev; reflexivity.
Qed.

Lemma live_trace (df : list Trade) (d0 : IEX_stocks.Dashboard Image)
    (evs : list IEX_stocks.Event) :
  Live.serve spikes_aggregate df = Some d0 ->
  let store := Spikes_of (to_exchange_time df) in
  let d := Live.run spikes_aggregate d0 evs in
  showing spikes_aggregate store (last_built store evs) d /\
  IEX_stocks.value d = last_selection evs /\
  IEX_stocks.current_range d = last_range evs.
Proof.
  intros Hserve store d.
  destruct (serve_showing df d0 Hserve) as (_ & _ & Hs0 & Hv0 & Hr0).
  destruct (run_showing store evs d0 _ Hs0) as (Hs & Hv & Hr).
  fold d in Hs, Hv, Hr. rewrite Hv0 in Hv. rewrite Hr0 in Hr.
  split; [exact Hs|]. split; [exact Hv|exact Hr].
Qed.

Lemma published_showing (store : Spikes) (built : list string)
    (d : IEX_stocks.Dashboard Image) :
  showing spikes_aggregate store built d ->
  IEX_stocks.published d
  = map (scene_at spikes_aggregate store (IEX_stocks.current_range d))
        (enumerate built).
Proof.
  intros (Hsp & Hne & Hit). unfold IEX_stocks.published.
  rewrite Hit, map_map. apply map_ext. intros item.
  apply render_symbol_overlay.
Qed.

Lemma scene_entry (store : Spikes) (built : list string)
    (d : IEX_stocks.Dashboard Image) (i : nat) (sym : string) :
  showing spikes_aggregate store built d ->
  nth_error built i = Some sym ->
  nth_error (IEX_stocks.published d) i
  = Some (scene_at spikes_aggregate store (IEX_stocks.current_range d)
            (i, sym)).
Proof.
  intros Hd Hi. rewrite (published_showing store built d Hd).
  rewrite nth_error_map. unfold enumerate.
  rewrite nth_error_enumerate_from, Hi. reflexivity.
Qed.

Lemma hover_rows_of_scene (store : Spikes) (x_range : XRange) (i : nat)
    (sym : string) :
  let in_view := filter (matches x_range sym) (data store) in
  let hov := snd (scene_at spikes_aggregate store x_range (i, sym)) in
  options hov = mkOptions (Some 1) (Some 0) [hover] (Some i) /\
  ((List.length in_view < 200)%nat -> data hov = in_view) /\
  ((200 <= List.length in_view)%nat -> data hov = []).
Proof.
  intros in_view hov. subst hov. cbn [scene_at snd].
  rewrite xrange_filter_stocks_at.
  split; [reflexivity|].
  assert (Hq : data (ranged_of (select store sym) x_range) = in_view)
    by apply query_as_filter.
  split; intros Hlen.
  - change (data (xrange_filter_at 200 (select store sym) x_range)
            = in_view).
    rewrite data_xrange_filter_below; [exact Hq|].
    unfold len. now rewrite Hq.
  - change (data (xrange_filter_at 200 (select store sym) x_range) = []).
    apply data_xrange_filter_reached. unfold len. now rewrite Hq.
Qed.

(** C3. Whatever range changes and selection changes the served dashboard
    has gone through, a further range change makes the new range the
    contents of the one range stream, to which both layers of every
    overlay on screen subscribe.  The scene then on screen has one entry
    for every symbol on screen, and in the entry of a symbol the grid is
    the aggregate of the selection of that symbol at the new range, and
    the hover spikes are the rows of that same selection that lie in that
    same new range: the events of the store with the symbol and a
    timestamp in the range, all of them when they are fewer than 200 and
    none otherwise.  Before the change the scene was likewise computed at
    the one range the stream then held. *)
Theorem layers_share_one_range :
  forall (df : list Trade) (d0 : IEX_stocks.Dashboard Image)
         (evs : list IEX_stocks.Event) (r : option Z * option Z),
    Live.serve spikes_aggregate df = Some d0 ->
    let store := Spikes_of (to_exchange_time df) in
    let d := Live.run spikes_aggregate d0 evs in
    let d' := Live.step spikes_aggregate d (IEX_stocks.RangeChange r) in
    IEX_stocks.current_range d' = Some r /\
    Forall (fun o => dm_stream (raster o) = IEX_stocks.range_stream /\
                     dm_stream (hover_layer o) = IEX_stocks.range_stream)
           (IEX_stocks.items (IEX_stocks.shown d')) /\
    List.length (IEX_stocks.published d')
    = List.length (last_built store evs) /\
    (forall (i : nat) (sym : string),
        nth_error (last_built store evs) i = Some sym ->
        let in_view := filter (matches (Some r) sym) (data store) in
        (forall e, In e in_view <->
                   In e (data store) /\
                   lies_in (Some r) (timestamp e) /\ symbol e = sym) /\
        exists (grid : Image) (hov : Spikes),
          nth_error (IEX_stocks.published d') i = Some (grid, hov) /\
          grid = spikes_aggregate (select store sym) (Some r) i
                   (ds_sum "size") /\
          ((List.length in_view < 200)%nat -> data hov = in_view) /\
          ((200 <= List.length in_view)%nat -> data hov = [])) /\
    IEX_stocks.published d
    = map (scene_at spikes_aggregate store (IEX_stocks.current_range d))
        (enumerate (last_built store evs)).
Proof.
  intros df d0 evs r Hserve store d d'.
  destruct (live_trace df d0 evs Hserve) as (Hd & _ & _).
  fold store in Hd. fold d in Hd.
  destruct (step_showing store _ d (IEX_stocks.RangeChange r) Hd)
    as (Hd' & _ & Hr).
  fold d' in Hd', Hr.
  split; [exact Hr|]. split; [|split; [|split]].
  - destruct Hd' as (_ & _ & Hit). rewrite Hit.
    apply Forall_forall. intros o Ho. apply in_map_iff in Ho.
    destruct Ho as (item & <- & _). apply symbol_overlay_streams.
  - rewrite (published_showing store _ d' Hd').
    now rewrite length_map, length_enumerate.
  - intros i sym Hi in_view. split.
    + intros e. subst in_view. rewrite filter_In, matches_iff. tauto.
    + pose proof (scene_entry store _ d' i sym Hd' Hi) as Hentry.
      rewrite Hr in Hentry.
      destruct (hover_rows_of_scene store (Some r) i sym)
        as (_ & Hbelow & Hreached).
      exists (spikes_aggregate (select store sym) (Some r) i
                (ds_sum "size")),
        (snd (scene_at spikes_aggregate store (Some r) (i, sym))).
      split; [exact Hentry|]. split; [reflexivity|].
      split; [exact Hbelow|exact Hreached].
  - exact (published_showing store _ d Hd).
Qed.

(** C5, as the code has it.  A range whose low bound is above its high
    bound is taken like any other: it becomes the range of the stream,
    the overlay on screen stays the one it was, and the hover layer of
    every overlay on screen, which reads that stream, is computed from the
    new range and is empty, since no timestamp lies in such a range. *)
Theorem inverted_range_is_accepted :
  forall (df : list Trade) (d0 : IEX_stocks.Dashboard Image)
         (evs : list IEX_stocks.Event) (low high : Z),
    Live.serve spikes_aggregate df = Some d0 ->
    high < low ->
    let d := Live.run spikes_aggregate d0 evs in
    let d' := Live.step spikes_aggregate d
                (IEX_stocks.RangeChange (Some low, Some high)) in
    IEX_stocks.current_range d' = Some (Some low, Some high) /\
    IEX_stocks.shown d' = IEX_stocks.shown d /\
    Forall (fun o =>
              dm_stream (hover_layer o) = IEX_stocks.range_stream /\
              data (render (IEX_stocks.globals d') (hover_layer o)) = [])
           (IEX_stocks.items (IEX_stocks.shown d')).
Proof.
  intros df d0 evs low high Hserve Hinv d d'.
  destruct (live_trace df d0 evs Hserve) as (Hd & _ & _).
  fold d in Hd.
  destruct (step_showing _ _ d
              (IEX_stocks.RangeChange (Some low, Some high)) Hd)
    as (Hd' & _ & Hr).
  fold d' in Hd', Hr.
  split; [exact Hr|]. split; [reflexivity|].
  destruct Hd' as (_ & _ & Hit). rewrite Hit.
  apply Forall_forall. intros o Ho. apply in_map_iff in Ho.
  destruct Ho as ([offset sym] & <- & _).
  split; [reflexivity|].
  change (data (snd (render_overlay (IEX_stocks.globals d')
                       (symbol_overlay spikes_aggregate
                          (Spikes_of (to_exchange_time df))
                          (offset, sym)))) = []).
  rewrite render_symbol_overlay.
  change (x_range (deref (IEX_stocks.globals d') IEX_stocks.range_stream))
    with (IEX_stocks.current_range d').
  rewrite Hr. cbn [scene_at snd opts_position opts_tools data].
  now apply data_xrange_filter_inverted.
Qed.

(** X4. A selection with a symbol that no trade of the store has cannot
    be built: [select] raises for that symbol and with it
    [visualize_symbols].  The selector holds the new value, while the
    overlay and the scene on screen, the range and the store stay as they
    were. *)
Theorem unknown_symbol_keeps_the_overlay :
  forall (d : IEX_stocks.Dashboard Image) (symbols : list string)
         (sym : string),
    In sym symbols ->
    (forall e, In e (data (spikes (IEX_stocks.globals d))) ->
               symbol e <> sym) ->
    let d' := Live.step spikes_aggregate d
                (IEX_stocks.SelectionChange symbols) in
    select_or_raise (spikes (IEX_stocks.globals d)) sym = None /\
    fst (Live.visualize_symbols spikes_aggregate symbols
           (IEX_stocks.globals d)) = None /\
    IEX_stocks.value d' = symbols /\
    IEX_stocks.shown d' = IEX_stocks.shown d /\
    IEX_stocks.published d' = IEX_stocks.published d /\
    IEX_stocks.current_range d' = IEX_stocks.current_range d /\
    spikes (IEX_stocks.globals d') = spikes (IEX_stocks.globals d).
Proof.
  intros d symbols sym Hsym Hno d'.
  apply has_symbol_absent in Hno.
  assert (Hb : buildable (spikes (IEX_stocks.globals d)) symbols = false).
  { destruct symbols as [|first rest]; [reflexivity|]. cbn [buildable].
    apply not_true_is_false. intros Hall.
    rewrite forallb_forall in Hall. specialize (Hall sym Hsym).
    congruence. }
  assert (Hd' : d' = IEX_stocks.mkDashboard
                       (rebound (IEX_stocks.globals d)
                          (built_prefix (spikes (IEX_stocks.globals d))
                             symbols))
                       symbols (IEX_stocks.shown d)).
  { subst d'. rewrite live_step_selection. cbn zeta. now rewrite Hb. }
  split; [unfold select_or_raise; now rewrite Hno|].
  split; [rewrite live_visualize_symbols_run; cbn [fst]; now rewrite Hb|].
  rewrite Hd'. split; [reflexivity|]. split; [reflexivity|].
  split; [|split].
  - unfold IEX_stocks.published. cbn [IEX_stocks.globals IEX_stocks.shown].
    apply map_ext. intros o. apply render_overlay_rebound.
  - unfold IEX_stocks.current_range. cbn [IEX_stocks.globals].
    apply rebound_x_range.
  - cbn [IEX_stocks.globals]. apply rebound_spikes.
Qed.

(** X9. What the served dashboard shows depends on the trace of events
    only through the selections and the last range: after any trace the
    value of the selector is that of the last selection change (the
    default before the first), the range is that of the last range change
    (none before the first), and the scene on screen is the scene, at that
    range over the loaded store, of the symbols of the last selection
    change for which an overlay was built. *)
Theorem dashboard_shows_last_built_at_last_range :
  forall (df : list Trade) (d0 : IEX_stocks.Dashboard Image)
         (evs : list IEX_stocks.Event),
    Live.serve spikes_aggregate df = Some d0 ->
    let store := Spikes_of (to_exchange_time df) in
    let d := Live.run spikes_aggregate d0 evs in
    IEX_stocks.value d = last_selection evs /\
    IEX_stocks.current_range d = last_range evs /\
    IEX_stocks.published d
    = map (scene_at spikes_aggregate store (last_range evs))
          (enumerate (last_built store evs)) /\
    (buildable store (last_selection evs) = true ->
     last_built store evs = last_selection evs).
Proof.
  intros df d0 evs Hserve store d.
  destruct (live_trace df d0 evs Hserve) as (Hd & Hv & Hr).
  fold store in Hd. fold d in Hd, Hv, Hr.
  split; [exact Hv|]. split; [exact Hr|]. split.
  - rewrite (published_showing store _ d Hd). now rewrite Hr.
  - apply last_built_of_buildable.
Qed.

(** X10. Every scene the served dashboard publishes has one entry per
    symbol on screen, in the order of the selection that was built.  The
    entry of the symbol at index [i] holds the aggregate of that symbol's
    trades at the current range and band [i], and hover spikes that sit at
    position [i] with length 1, are invisible (alpha 0), carry the hover
    tool, number fewer than 200, and are all trades of the loaded file
    with that symbol and a timestamp in the current range. *)
Theorem published_scene_invariants :
  forall (df : list Trade) (d0 : IEX_stocks.Dashboard Image)
         (evs : list IEX_stocks.Event) (i : nat) (sym : string),
    Live.serve spikes_aggregate df = Some d0 ->
    let store := Spikes_of (to_exchange_time df) in
    let d := Live.run spikes_aggregate d0 evs in
    nth_error (last_built store evs) i = Some sym ->
    List.length (IEX_stocks.published d)
    = List.length (last_built store evs) /\
    has_symbol store sym = true /\
    exists (grid : Image) (hov : Spikes),
      nth_error (IEX_stocks.published d) i = Some (grid, hov) /\
      grid = spikes_aggregate (select store sym) (IEX_stocks.current_range d)
               i (ds_sum "size") /\
      options hov = mkOptions (Some 1) (Some 0) [hover] (Some i) /\
      (len hov < 200)%nat /\
      (forall e, In e (data hov) ->
                 In e (to_exchange_time df) /\ symbol e = sym /\
                 lies_in (IEX_stocks.current_range d) (timestamp e)).
Proof.
  intros df d0 evs i sym Hserve store d Hi.
  destruct (live_trace df d0 evs Hserve) as (Hd & _ & _).
  fold store in Hd. fold d in Hd.
  split; [|split].
  - rewrite (published_showing store _ d Hd).
    now rewrite length_map, length_enumerate.
  - destruct (serve_showing df d0 Hserve) as (_ & Hb0 & _).
    fold store in Hb0.
    pose proof (last_built_buildable store evs Hb0) as Hb.
    destruct (last_built store evs) as [|first rest]; [discriminate|].
    cbn [buildable] in Hb. rewrite forallb_forall in Hb. apply Hb.
    now apply nth_error_In with i.
  - eexists. eexists.
    split; [exact (scene_entry store _ d i sym Hd Hi)|].
    split; [reflexivity|].
    cbn [scene_at snd]. rewrite xrange_filter_stocks_at.
    split; [reflexivity|]. split.
    + apply (len_xrange_filter_at 200). lia.
    + intros e He.
      change (In e (data (xrange_filter_at 200 (select store sym)
                            (IEX_stocks.current_range d)))) in He.
      apply In_xrange_filter_at in He.
      destruct He as [Hin Hlies]. apply In_select in Hin.
      destruct Hin as [Hin Hsym]. auto.
Qed.

(** X12. The last event of a kind overwrites the earlier one: after two
    range changes the dashboard is in the state the second alone gives,
    after two selection changes of which the second can be built it is in
    the state the second alone gives, and selecting the same symbols
    twice is the same as selecting them once, built or not. *)
Theorem last_event_overwrites :
  forall (d : IEX_stocks.Dashboard Image),
    (forall r1 r2 : option Z * option Z,
        Live.step spikes_aggregate
          (Live.step spikes_aggregate d (IEX_stocks.RangeChange r1))
          (IEX_stocks.RangeChange r2)
        = Live.step spikes_aggregate d (IEX_stocks.RangeChange r2)) /\
    (forall first second : list string,
        buildable (spikes (IEX_stocks.globals d)) second = true ->
        Live.step spikes_aggregate
          (Live.step spikes_aggregate d (IEX_stocks.SelectionChange first))
          (IEX_stocks.SelectionChange second)
        = Live.step spikes_aggregate d
            (IEX_stocks.SelectionChange second)) /\
    (forall symbols : list string,
        Live.step spikes_aggregate
          (Live.step spikes_aggregate d
             (IEX_stocks.SelectionChange symbols))
          (IEX_stocks.SelectionChange symbols)
        = Live.step spikes_aggregate d
            (IEX_stocks.SelectionChange symbols)).
Proof.
  intros d. split; [|split].
  - intros r1 r2. cbn. now rewrite set_x_range_twice.
  - intros first second Hb. rewrite !live_step_selection. cbn zeta.
    cbn [IEX_stocks.globals IEX_stocks.shown]. rewrite rebound_spikes.
    rewrite Hb, (built_prefix_buildable _ _ Hb).
    rewrite rebound_rebound; [reflexivity|].
    destruct second; [discriminate Hb|discriminate].
  - intros symbols. rewrite !live_step_selection. cbn zeta.
    cbn [IEX_stocks.globals IEX_stocks.shown]. rewrite rebound_spikes.
    f_equal.
    + destruct (built_prefix (spikes (IEX_stocks.globals d)) symbols)
        as [|s rest] eqn:Hp; [reflexivity|].
      rewrite rebound_rebound by discriminate. reflexivity.
    + destruct (buildable (spikes (IEX_stocks.globals d)) symbols);
        reflexivity.
Qed.

(** X19. Where every selection of a trace can be built, the dashboard
    whose callback may raise goes through the same states as the one whose
    calls all return: the served dashboard is the same, and so is the
    dashboard after the trace. *)
Theorem buildable_trace_never_raises :
  forall (df : list Trade) (d0 : IEX_stocks.Dashboard Image)
         (evs : list IEX_stocks.Event),
    Live.serve spikes_aggregate df = Some d0 ->
    (forall symbols : list string,
        In (IEX_stocks.SelectionChange symbols) evs ->
        buildable (Spikes_of (to_exchange_time df)) symbols = true) ->
    d0 = IEX_stocks.serve spikes_aggregate df /\
    Live.run spikes_aggregate d0 evs
    = IEX_stocks.run spikes_aggregate
        (IEX_stocks.serve spikes_aggregate df) evs /\
    last_built (Spikes_of (to_exchange_time df)) evs = last_selection evs.
Proof.
  intros df d0 evs Hserve Hall.
  set (store := Spikes_of (to_exchange_time df)) in *.
  destruct (serve_showing df d0 Hserve) as (_ & Hb0 & Hs0 & _).
  fold store in Hb0, Hs0.
  assert (Hd0 : d0 = IEX_stocks.serve spikes_aggregate df).
  { rewrite live_serve_value in Hserve.
    destruct (forallb (fun e => stamp_carried (timestamp e)) df
              && buildable (Spikes_of (to_exchange_time df))
                   IEX_stocks.cross_selector_value);
      [now injection Hserve|discriminate]. }
  split; [exact Hd0|]. split.
  - rewrite <- Hd0. clear Hd0 Hserve.
    assert (Hsp : spikes (IEX_stocks.globals d0) = store) by apply Hs0.
    clear Hs0. revert d0 Hsp.
    induction evs as [|ev evs IH]; intros d Hsp; [reflexivity|].
    cbn [Live.run IEX_stocks.run fold_left].
    assert (Hstep : Live.step spikes_aggregate d ev
                    = IEX_stocks.step spikes_aggregate d ev).
    { destruct ev as [r|symbols]; [reflexivity|].
      apply live_step_buildable. rewrite Hsp. apply Hall. now left. }
    rewrite Hstep.
    apply IH.
    + intros symbols Hin. apply Hall. now right.
    + destruct ev as [r|symbols]; [exact Hsp|].
      rewrite step_selection. cbn [IEX_stocks.globals].
      now rewrite rebound_spikes.
  - clear - Hall. unfold last_built, last_selection.
    generalize IEX_stocks.cross_selector_value.
    induction evs as [|ev evs IH]; intros acc; [reflexivity|].
    cbn [fold_left]. destruct ev as [r|symbols].
    + apply IH. intros symbols Hin. apply Hall. now right.
    + rewrite (Hall symbols) by now left.
      apply IH. intros s Hin. apply Hall. now right.
Qed.

End Running.
Lemma layers_share_one_range_witness :
  IEX_stocks.current_range
    (Live.step (Aggregator.spikes_aggregate small)
       (Live.run (Aggregator.spikes_aggregate small) day_served
          [IEX_stocks.SelectionChange ["SNAP"; "PINS"]])
       (IEX_stocks.RangeChange morning))
  = Some morning /\
  List.length
    (IEX_stocks.published
       (Live.step (Aggregator.spikes_aggregate small)
          (Live.run (Aggregator.spikes_aggregate small) day_served
             [IEX_stocks.SelectionChange ["SNAP"; "PINS"]])
          (IEX_stocks.RangeChange morning)))
  = 2%nat.
Proof.
  pose proof (layers_share_one_range (Aggregator.spikes_aggregate small)
                day_df day_served
                [IEX_stocks.SelectionChange ["SNAP"; "PINS"]] morning
                eq_refl) as H.
  cbv zeta in H. destruct H as (Hr & _ & Hlen & _).
  split; [exact Hr|exact Hlen].
Defined.

Lemma inverted_range_is_accepted_witness :
  IEX_stocks.current_range day_backwards = Some backwards /\
  IEX_stocks.shown day_backwards = IEX_stocks.shown day_zoomed.
Proof.
  pose proof (inverted_range_is_accepted (Aggregator.spikes_aggregate small)
                day_df day_served [IEX_stocks.RangeChange morning]
                1571650500000000000 1571650320000000000 eq_refl) as H.
  cbv zeta in H. destruct H as (Hr & Hshown & _); [lia|].
  split; [exact Hr|exact Hshown].
Defined.

(** C5, as stated, fails: the dashboard served for the trades of the day
    and zoomed to the morning, where the hover layers hold two and one
    spikes, takes the range from 09:35 down to 09:32 as its current range,
    and its hover layers, computed from that range, hold no spike. *)
Lemma inverted_range_replaces_scene :
  Live.serve (Aggregator.spikes_aggregate small) day_df = Some day_served /\
  IEX_stocks.current_range day_zoomed = Some morning /\
  map (fun o => len (render (IEX_stocks.globals day_zoomed) (hover_layer o)))
      (IEX_stocks.items (IEX_stocks.shown day_zoomed))
  = [2%nat; 1%nat] /\
  IEX_stocks.current_range day_backwards = Some backwards /\
  map (fun o => len (render (IEX_stocks.globals day_backwards)
                       (hover_layer o)))
      (IEX_stocks.items (IEX_stocks.shown day_backwards))
  = [0%nat; 0%nat].
Proof.
  split; [reflexivity|]. split; [reflexivity|]. split; [reflexivity|].
  split; reflexivity.
Qed.

Lemma unknown_symbol_keeps_the_overlay_witness :
  IEX_stocks.published
    (Live.step (Aggregator.spikes_aggregate small) day_zoomed
       (IEX_stocks.SelectionChange ["PINS"; "General Electric"]))
  = IEX_stocks.published day_zoomed.
Proof.
  apply (unknown_symbol_keeps_the_overlay (Aggregator.spikes_aggregate small)
           day_zoomed ["PINS"; "General Electric"] "General Electric").
  - simpl. right. left. reflexivity.
  - apply has_symbol_absent. reflexivity.
Defined.

Lemma dashboard_shows_last_built_at_last_range_witness :
  IEX_stocks.published
    (Live.run (Aggregator.spikes_aggregate small) day_served
       [IEX_stocks.SelectionChange ["General Electric"];
        IEX_stocks.RangeChange morning])
  = map (scene_at (Aggregator.spikes_aggregate small)
           (Spikes_of (to_exchange_time day_df)) (Some morning))
        (enumerate ["PINS"; "CHK"]).
Proof.
  apply (dashboard_shows_last_built_at_last_range
           (Aggregator.spikes_aggregate small) day_df day_served
           [IEX_stocks.SelectionChange ["General Electric"];
            IEX_stocks.RangeChange morning]).
  reflexivity.
Defined.

Lemma published_scene_invariants_witness :
  has_symbol (Spikes_of (to_exchange_time day_df)) "PINS" = true.
Proof.
  apply (published_scene_invariants (Aggregator.spikes_aggregate small)
           day_df day_served [IEX_stocks.RangeChange morning] 0%nat "PINS").
  - reflexivity.
  - reflexivity.
Defined.

Lemma last_event_overwrites_witness :
  Live.step (Aggregator.spikes_aggregate small)
    (Live.step (Aggregator.spikes_aggregate small) day_zoomed
       (IEX_stocks.SelectionChange ["General Electric"]))
    (IEX_stocks.SelectionChange ["PINS"])
  = Live.step (Aggregator.spikes_aggregate small) day_zoomed
      (IEX_stocks.SelectionChange ["PINS"]).
Proof.
  apply (last_event_overwrites (Aggregator.spikes_aggregate small)
           day_zoomed).
  reflexivity.
Defined.

Lemma buildable_trace_never_raises_witness :
  Live.run (Aggregator.spikes_aggregate small) day_served
    [IEX_stocks.SelectionChange ["SNAP"]; IEX_stocks.RangeChange morning]
  = IEX_stocks.run (Aggregator.spikes_aggregate small)
      (IEX_stocks.serve (Aggregator.spikes_aggregate small) day_df)
      [IEX_stocks.SelectionChange ["SNAP"]; IEX_stocks.RangeChange morning].
Proof.
  apply (buildable_trace_never_raises (Aggregator.spikes_aggregate small)
           day_df day_served
           [IEX_stocks.SelectionChange ["SNAP"];
            IEX_stocks.RangeChange morning]).
  - reflexivity.
  - intros symbols [Hin|[Hin|[]]]; [|discriminate Hin].
    injection Hin as <-. reflexivity.
Defined.

(** ** The most traded symbols *)

Lemma compare_lt_trans (a b c : string) :
  String.compare a b = Lt -> String.compare b c = Lt ->
  String.compare a c = Lt.
Proof.
  intros Hab Hbc. apply String_as_OT.cmp_lt.
  apply String_as_OT.lt_trans with b; now apply String_as_OT.cmp_lt.
Qed.

Lemma compare_gt_lt (a b : string) :
  String.compare a b = Gt -> String.compare b a = Lt.
Proof.
  intros Hab. rewrite String.compare_antisym, Hab. reflexivity.
Qed.

Lemma compare_lt_neq (a b : string) : String.compare a b = Lt -> a <> b.
Proof.
  intros Hab ->.
  assert (H : String.compare b b = Eq) by now apply String_as_OT.cmp_eq.
  congruence.
Qed.

Lemma Forall_add_volume (P : string -> Prop) (sym : string) (v : Z)
    (groups : list (string * Z)) :
  Forall (fun row => P (fst row)) groups -> P sym ->
  Forall (fun row => P (fst row)) (Volumes.add_volume sym v groups).
Proof.
  intros Hall Hsym.
  induction groups as [|[k t] rest IH]; simpl; [now constructor|].
  inversion Hall as [|row l Hk Hrest]; subst.
  destruct (String.compare sym k); constructor; auto.
Qed.

Lemma keys_ascending_add_volume (sym : string) (v : Z)
    (groups : list (string * Z)) :
  keys_ascending groups -> keys_ascending (Volumes.add_volume sym v groups).
Proof.
  unfold keys_ascending. intros Hs.
  induction Hs as [|[k t] rest Hrest IH Hall]; simpl.
  - constructor; constructor.
  - destruct (String.compare sym k) eqn:Hc.
    + constructor; [exact Hrest|exact Hall].
    + constructor; [now constructor|].
      constructor; [exact Hc|].
      eapply Forall_impl; [|exact Hall].
      intros row Hrow. simpl in *. now apply compare_lt_trans with k.
    + constructor; [exact IH|].
      apply (Forall_add_volume (fun x => String.compare k x = Lt));
        [exact Hall|now apply compare_gt_lt].
Qed.

Lemma keys_add_volume (sym : string) (v : Z) (groups : list (string * Z))
    (q : string) :
  In q (map fst (Volumes.add_volume sym v groups))
  <-> q = sym \/ In q (map fst groups).
Proof.
  induction groups as [|[k t] rest IH]; simpl; [intuition auto|].
  destruct (String.compare sym k) eqn:Hc; simpl.
  - apply String.compare_eq_iff in Hc. subst. intuition auto.
  - intuition auto.
  - rewrite IH. intuition auto.
Qed.

Lemma volume_of_absent (sym : string) (groups : list (string * Z)) :
  Forall (fun row => String.compare sym (fst row) = Lt) groups ->
  Volumes.volume_of groups sym = 0.
Proof.
  induction 1 as [|[k t] rest Hk Hrest IH]; simpl; [reflexivity|].
  replace (String.eqb k sym) with false; [exact IH|].
  symmetry. apply String.eqb_neq. intros ->.
  now apply compare_lt_neq in Hk.
Qed.

Lemma wrap64_small (z : Z) : - 2 ^ 63 <= z < 2 ^ 63 -> Volumes.wrap64 z = z.
Proof.
  intros Hz. unfold Volumes.wrap64.
  rewrite Z.mod_small; lia.
Qed.

Lemma exact_total_nonneg (series : list (string * Z)) :
  nonnegative series -> 0 <= exact_total series.
Proof.
  unfold nonnegative.
  induction series as [|row series IH]; simpl; intros H; [lia|].
  specialize (H row (or_introl eq_refl)) as Hrow.
  assert (0 <= exact_total series) by (apply IH; intros; apply H; now right).
  lia.
Qed.

Lemma nonnegative_cons (row : string * Z) (series : list (string * Z)) :
  nonnegative (row :: series) <-> 0 <= snd row /\ nonnegative series.
Proof.
  unfold nonnegative. split.
  - intros H. split; [apply H; now left|].
    intros r Hr. apply H. now right.
  - intros [Hrow Hrest] r [<-|Hr]; [exact Hrow|now apply Hrest].
Qed.

Lemma add_volume_fits (sym : string) (v : Z) (groups : list (string * Z)) :
  nonnegative groups -> 0 <= v -> exact_total groups + v < 2 ^ 63 ->
  nonnegative (Volumes.add_volume sym v groups) /\
  exact_total (Volumes.add_volume sym v groups) = exact_total groups + v.
Proof.
  induction groups as [|[k t] rest IH]; intros Hrows Hv Hfit.
  - simpl. split; [|lia]. intros row [<-|[]]. exact Hv.
  - apply nonnegative_cons in Hrows. destruct Hrows as [Ht Hrest].
    pose proof (exact_total_nonneg rest Hrest) as Hsum.
    cbn [exact_total fold_right snd] in Hfit.
    change (fold_right (fun row acc => snd row + acc) 0 rest)
      with (exact_total rest) in Hfit.
    cbn [Volumes.add_volume]. simpl in Ht.
    destruct (String.compare sym k).
    + rewrite wrap64_small by lia. split.
      * apply nonnegative_cons. simpl. split; [lia|exact Hrest].
      * simpl. change (fold_right (fun row acc => snd row + acc) 0 rest)
          with (exact_total rest). lia.
    + split.
      * apply nonnegative_cons. split; [exact Hv|].
        apply nonnegative_cons. split; [exact Ht|exact Hrest].
      * simpl. change (fold_right (fun row acc => snd row + acc) 0 rest)
          with (exact_total rest). lia.
    + destruct (IH Hrest Hv) as [Hrows' Hsum']; [lia|]. split.
      * apply nonnegative_cons. split; [exact Ht|exact Hrows'].
      * cbn [exact_total fold_right snd].
        change (fold_right (fun row acc => snd row + acc) 0
                  (Volumes.add_volume sym v rest))
          with (exact_total (Volumes.add_volume sym v rest)).
        change (fold_right (fun row acc => snd row + acc) 0 rest)
          with (exact_total rest).
        rewrite Hsum'. lia.
Qed.

Lemma volume_of_add_volume (sym : string) (v : Z)
    (groups : list (string * Z)) (q : string) :
  keys_ascending groups ->
  nonnegative groups -> 0 <= v -> exact_total groups + v < 2 ^ 63 ->
  Volumes.volume_of (Volumes.add_volume sym v groups) q
  = Volumes.volume_of groups q + (if String.eqb sym q then v else 0).
Proof.
  unfold keys_ascending. intros Hs.
  induction Hs as [|[k t] rest Hrest IH Hall]; intros Hrows Hv Hfit.
  - simpl. destruct (String.eqb sym q); lia.
  - apply nonnegative_cons in Hrows. destruct Hrows as [Ht Hnn].
    pose proof (exact_total_nonneg rest Hnn) as Hsum.
    cbn [exact_total fold_right snd] in Hfit.
    change (fold_right (fun row acc => snd row + acc) 0 rest)
      with (exact_total rest) in Hfit.
    simpl in Ht. cbn [Volumes.add_volume].
    destruct (String.compare sym k) eqn:Hc; simpl.
    + apply String.compare_eq_iff in Hc. subst k.
      rewrite wrap64_small by lia.
      destruct (String.eqb sym q); lia.
    + destruct (String.eqb_spec sym q) as [->|Hne]; [|lia].
      assert (Hkq : String.eqb k q = false).
      { apply String.eqb_neq. intros ->. now apply compare_lt_neq in Hc. }
      rewrite Hkq, volume_of_absent; [lia|].
      eapply Forall_impl; [|exact Hall].
      intros row Hrow. simpl in *. now apply compare_lt_trans with k.
    + destruct (String.eqb_spec k q) as [->|Hkq].
      * replace (String.eqb sym q) with false; [lia|].
        symmetry. apply String.eqb_neq. intros ->.
        apply compare_gt_lt in Hc. now apply compare_lt_neq in Hc.
      * apply IH; [exact Hnn|exact Hv|lia].
Qed.

Lemma volumes_fold_keys (df : list Trade) :
  forall acc : list (string * Z),
    keys_ascending acc ->
    let out := fold_left (fun groups e =>
                            Volumes.add_volume (symbol e) (size e) groups)
                         df acc in
    keys_ascending out /\
    (forall k, In k (map fst out) <->
               In k (map fst acc) \/ exists e, In e df /\ symbol e = k).
Proof.
  induction df as [|e df IH]; intros acc Hacc out.
  - subst out; simpl. split; [exact Hacc|].
    intros k. split; [auto|]. intros [H|(e & [] & _)]. exact H.
  - subst out. cbn [fold_left].
    destruct (IH (Volumes.add_volume (symbol e) (size e) acc)
                (keys_ascending_add_volume _ _ _ Hacc))
      as (Hs & Hkeys).
    split; [exact Hs|].
    intros k. rewrite Hkeys, keys_add_volume. split.
    + intros [[->|H]|(x & Hx & Hk)]; eauto.
      * right. exists e. split; [now left|reflexivity].
      * right. exists x. split; [now right|exact Hk].
    + intros [H|(x & [->|Hx] & Hk)]; eauto.
Qed.

Lemma size_sum_nonneg (rows : list Trade) :
  (forall e, In e rows -> 0 <= size e) -> 0 <= size_sum rows.
Proof.
  induction rows as [|e rows IH]; simpl; intros H; [lia|].
  specialize (H e (or_introl eq_refl)) as He.
  assert (0 <= size_sum rows) by (apply IH; intros; apply H; now right).
  lia.
Qed.

Lemma volumes_fold_sums (df : list Trade) :
  forall acc : list (string * Z),
    keys_ascending acc -> nonnegative acc ->
    (forall e, In e df -> 0 <= size e) ->
    exact_total acc + size_sum df < 2 ^ 63 ->
    let out := fold_left (fun groups e =>
                            Volumes.add_volume (symbol e) (size e) groups)
                         df acc in
    nonnegative out /\
    exact_total out = exact_total acc + size_sum df /\
    (forall k, Volumes.volume_of out k
               = Volumes.volume_of acc k
                 + size_sum (filter (fun e => String.eqb (symbol e) k) df)).
Proof.
  induction df as [|e df IH]; intros acc Hacc Hrows Hsizes Hfit out.
  - subst out; simpl. split; [exact Hrows|]. split; [lia|].
    intros k. lia.
  - subst out. cbn [fold_left].
    assert (He : 0 <= size e) by (apply Hsizes; now left).
    assert (Hrest : forall x, In x df -> 0 <= size x)
      by (intros x Hx; apply Hsizes; now right).
    pose proof (size_sum_nonneg df Hrest) as Hdf.
    cbn [size_sum fold_right] in Hfit.
    change (fold_right (fun e acc => size e + acc) 0 df)
      with (size_sum df) in Hfit.
    destruct (add_volume_fits (symbol e) (size e) acc Hrows He)
      as [Hrows' Hsum']; [lia|].
    destruct (IH (Volumes.add_volume (symbol e) (size e) acc)
                (keys_ascending_add_volume _ _ _ Hacc) Hrows' Hrest)
      as (Hnn & Hsum & Hvol); [rewrite Hsum'; lia|].
    split; [exact Hnn|]. split.
    + rewrite Hsum, Hsum'. simpl. lia.
    + intros k. rewrite Hvol.
      rewrite volume_of_add_volume by (auto; lia).
      simpl. destruct (String.eqb (symbol e) k); simpl; lia.
Qed.

Lemma keys_ascending_NoDup (groups : list (string * Z)) :
  keys_ascending groups -> NoDup (map fst groups).
Proof.
  unfold keys_ascending.
  induction 1 as [|[k t] rest Hrest IH Hall]; simpl; constructor;
    [|exact IH].
  intros Hin. apply in_map_iff in Hin. destruct Hin as (row & Hk & Hrow).
  rewrite Forall_forall in Hall. specialize (Hall row Hrow).
  simpl in *. subst k. now apply compare_lt_neq in Hall.
Qed.

Lemma volume_of_row (series : list (string * Z)) (k : string) (v : Z) :
  NoDup (map fst series) -> In (k, v) series ->
  Volumes.volume_of series k = v.
Proof.
  induction series as [|[k' v'] rest IH]; simpl; intros Hnd Hin;
    [contradiction|].
  inversion Hnd as [|x l Hnot Hrest]; subst.
  destruct Hin as [Heq|Hin].
  - inversion Heq; subst. now rewrite String.eqb_refl.
  - destruct (String.eqb_spec k' k) as [->|Hne]; [|now apply IH].
    exfalso. apply Hnot. apply in_map_iff. now exists (k, v).
Qed.

Lemma exact_total_app (a b : list (string * Z)) :
  exact_total (a ++ b) = exact_total a + exact_total b.
Proof. induction a as [|row a IH]; simpl in *; lia. Qed.

Lemma exact_total_Permutation (a b : list (string * Z)) :
  Permutation a b -> exact_total a = exact_total b.
Proof. induction 1; simpl in *; lia. Qed.

Lemma series_sum_exact (series : list (string * Z)) :
  nonnegative series -> exact_total series < 2 ^ 63 ->
  Volumes.series_sum series = exact_total series.
Proof.
  induction series as [|row series IH]; intros Hrows Hfit;
    [reflexivity|].
  apply nonnegative_cons in Hrows. destruct Hrows as [Hrow Hrest].
  pose proof (exact_total_nonneg series Hrest) as Hsum.
  cbn [exact_total fold_right] in Hfit.
  change (fold_right (fun row acc => snd row + acc) 0 series)
    with (exact_total series) in Hfit.
  cbn [Volumes.series_sum exact_total fold_right].
  change (fold_right (fun row acc => Volumes.wrap64 (snd row + acc)) 0 series)
    with (Volumes.series_sum series).
  change (fold_right (fun row acc => snd row + acc) 0 series)
    with (exact_total series).
  rewrite IH by (auto; lia). apply wrap64_small. lia.
Qed.

Lemma ranked_split (ranked : list (string * Z)) :
  ranked
  = (firstn (List.length ranked - 10) ranked
     ++ Volumes.top_symbol_volumes ranked)%list.
Proof.
  unfold Volumes.top_symbol_volumes, Volumes.last_rows.
  now rewrite firstn_skipn.
Qed.

Lemma sorted_app_le (a b : list (string * Z)) :
  Sorted (fun x y => snd x <= snd y) (a ++ b) ->
  forall x y, In x a -> In y b -> snd x <= snd y.
Proof.
  intros Hs. apply Sorted_StronglySorted in Hs;
    [|intros x y z Hxy Hyz; lia].
  induction a as [|r a IH]; simpl in *; intros x y Hx Hy; [contradiction|].
  inversion Hs as [|r' l Hrest Hall]; subst.
  destruct Hx as [->|Hx].
  - rewrite Forall_forall in Hall. apply Hall. apply in_or_app. now right.
  - now apply IH.
Qed.

Lemma symbol_volumes_keys (df : list Trade) :
  keys_ascending (Volumes.symbol_volumes df) /\
  (forall k, In k (map fst (Volumes.symbol_volumes df)) <->
             exists e, In e df /\ symbol e = k).
Proof.
  assert (Hnil : keys_ascending []) by constructor.
  destruct (volumes_fold_keys df [] Hnil) as (Hs & Hkeys).
  unfold Volumes.symbol_volumes.
  split; [exact Hs|].
  intros k. rewrite Hkeys. simpl. tauto.
Qed.

Lemma symbol_volumes_sums (df : list Trade) :
  sums_fit df ->
  nonnegative (Volumes.symbol_volumes df) /\
  exact_total (Volumes.symbol_volumes df) = size_sum df /\
  (forall k, Volumes.volume_of (Volumes.symbol_volumes df) k
             = size_sum (data (select (Spikes_of df) k))).
Proof.
  intros [Hsizes Hfit].
  assert (Hnil : keys_ascending []) by constructor.
  assert (Hnn : nonnegative []) by (intros row []).
  destruct (volumes_fold_sums df [] Hnil Hnn Hsizes) as (Hrows & Hsum & Hvol);
    [simpl; lia|].
  unfold Volumes.symbol_volumes.
  split; [exact Hrows|]. split.
  - rewrite Hsum. simpl. lia.
  - intros k. rewrite Hvol. simpl. lia.
Qed.

(** X15. Grouping by symbol has one row per symbol that occurs in the
    file, the keys in strictly ascending order and so without repetition.
    Where no size is negative and the sizes of the file add up to less
    than [2 ^ 63], so that no int64 sum wraps, the volume of a symbol of
    the series is the sum of the sizes of the trades that [select]
    returns for that symbol. *)
Theorem symbol_volumes_partition_sizes :
  forall (df : list Trade),
    keys_ascending (Volumes.symbol_volumes df) /\
    NoDup (map fst (Volumes.symbol_volumes df)) /\
    (forall k, In k (map fst (Volumes.symbol_volumes df)) <->
               exists e, In e df /\ symbol e = k) /\
    (sums_fit df ->
     forall k v, In (k, v) (Volumes.symbol_volumes df) ->
                 exists selection : Spikes,
                   select_or_raise (Spikes_of df) k = Some selection /\
                   v = size_sum (data selection)).
Proof.
  intros df.
  destruct (symbol_volumes_keys df) as (Hs & Hkeys).
  pose proof (keys_ascending_NoDup _ Hs) as Hnd.
  split; [exact Hs|]. split; [exact Hnd|]. split; [exact Hkeys|].
  intros Hfit k v Hin.
  destruct (symbol_volumes_sums df Hfit) as (_ & _ & Hvol).
  exists (select (Spikes_of df) k). split.
  - unfold select_or_raise.
    replace (has_symbol (Spikes_of df) k) with true; [reflexivity|].
    symmetry. apply has_symbol_iff. apply Hkeys.
    apply in_map_iff. now exists (k, v).
  - rewrite <- Hvol. symmetry. now apply volume_of_row.
Qed.

(** X16. Whatever order the sort leaves equal volumes in, the top symbols
    are ten symbols when the file has at least ten and all of them
    otherwise, no symbol is listed twice, and each is a symbol that occurs
    in the file. *)
Theorem top_symbols_are_ten_distinct_symbols :
  forall (df : list Trade) (ranked : list (string * Z)),
    Volumes.ranking (Volumes.symbol_volumes df) ranked ->
    List.length (Volumes.top_symbols ranked)
    = Nat.min 10 (List.length (Volumes.symbol_volumes df)) /\
    NoDup (Volumes.top_symbols ranked) /\
    (forall k, In k (Volumes.top_symbols ranked) ->
               exists e, In e df /\ symbol e = k).
Proof.
  intros df ranked [Hperm Hsorted].
  destruct (symbol_volumes_keys df) as (Hs & Hkeys).
  pose proof (keys_ascending_NoDup _ Hs) as Hnd.
  assert (Hndr : NoDup (map fst ranked)).
  { eapply Permutation_NoDup; [|exact Hnd].
    apply Permutation_map. now apply Permutation_sym. }
  split; [|split].
  - unfold Volumes.top_symbols, Volumes.top_symbol_volumes,
      Volumes.last_rows.
    rewrite length_map, length_skipn, (Permutation_length Hperm). lia.
  - rewrite (ranked_split ranked), map_app in Hndr.
    now apply NoDup_app_remove_l in Hndr.
  - intros k Hk. apply Hkeys.
    unfold Volumes.top_symbols in Hk. apply in_map_iff in Hk.
    destruct Hk as (row & <- & Hrow).
    apply in_map. apply (Permutation_in _ Hperm).
    rewrite (ranked_split ranked). apply in_or_app. now right.
Qed.

(** X17. Where no size is negative and the sizes of the file add up to
    less than [2 ^ 63], the top symbols are the most traded ones: a symbol
    of the file that is not among the top symbols has a total traded size
    no larger than that of any top symbol, whatever order the sort leaves
    equal volumes in. *)
Theorem top_symbols_dominate :
  forall (df : list Trade) (ranked : list (string * Z)) (k k' : string),
    Volumes.ranking (Volumes.symbol_volumes df) ranked ->
    sums_fit df ->
    In k (map fst (Volumes.symbol_volumes df)) ->
    ~ In k (Volumes.top_symbols ranked) ->
    In k' (Volumes.top_symbols ranked) ->
    size_sum (data (select (Spikes_of df) k))
    <= size_sum (data (select (Spikes_of df) k')).
Proof.
  intros df ranked k k' [Hperm Hsorted] Hfit Hk Hnot Hk'.
  destruct (symbol_volumes_keys df) as (Hs & _).
  destruct (symbol_volumes_sums df Hfit) as (_ & _ & Hvol).
  pose proof (keys_ascending_NoDup _ Hs) as Hnd.
  apply in_map_iff in Hk. destruct Hk as ([k0 v] & Hk0 & Hrow).
  simpl in Hk0. subst k0.
  unfold Volumes.top_symbols in Hk'. apply in_map_iff in Hk'.
  destruct Hk' as ([k0 v'] & Hk0 & Hrow'). simpl in Hk0. subst k0.
  assert (Hin' : In (k', v') (Volumes.symbol_volumes df)).
  { apply (Permutation_in _ Hperm). rewrite (ranked_split ranked).
    apply in_or_app. now right. }
  rewrite <- !Hvol.
  rewrite (volume_of_row _ k v Hnd Hrow), (volume_of_row _ k' v' Hnd Hin').
  assert (Hr : In (k, v) ranked)
    by (apply (Permutation_in _ (Permutation_sym Hperm)); exact Hrow).
  rewrite (ranked_split ranked) in Hr, Hsorted.
  apply in_app_or in Hr. destruct Hr as [Hpre|Htop].
  - exact (sorted_app_le _ _ Hsorted (k, v) (k', v') Hpre Hrow').
  - exfalso. apply Hnot. unfold Volumes.top_symbols.
    apply in_map_iff. now exists (k, v).
Qed.

(** X18. Where no size is negative and the sizes of the file add up to
    less than [2 ^ 63], the volume of the top symbols that the notebook
    sums is between 0 and the volume of all symbols that it sums, and the
    two are the sums in the integers of the volumes they add up. *)
Theorem top_volume_within_total :
  forall (df : list Trade) (ranked : list (string * Z)),
    Volumes.ranking (Volumes.symbol_volumes df) ranked ->
    sums_fit df ->
    0 <= Volumes.series_sum (Volumes.top_symbol_volumes ranked)
    <= Volumes.series_sum (Volumes.symbol_volumes df) /\
    Volumes.series_sum (Volumes.top_symbol_volumes ranked)
    = exact_total (Volumes.top_symbol_volumes ranked) /\
    Volumes.series_sum (Volumes.symbol_volumes df)
    = exact_total (Volumes.symbol_volumes df).
Proof.
  intros df ranked [Hperm Hsorted] Hfit.
  destruct (symbol_volumes_sums df Hfit) as (Hnn & Hsum & _).
  destruct Hfit as [Hsizes Hfit].
  assert (Hrows : nonnegative ranked).
  { intros row Hrow. apply Hnn. now apply (Permutation_in _ Hperm). }
  assert (Hpre : nonnegative (firstn (List.length ranked - 10) ranked)).
  { intros row Hrow. apply Hrows.
    rewrite (ranked_split ranked). apply in_or_app. now left. }
  assert (Htop : nonnegative (Volumes.top_symbol_volumes ranked)).
  { intros row Hrow. apply Hrows.
    rewrite (ranked_split ranked). apply in_or_app. now right. }
  pose proof (exact_total_nonneg _ Hpre) as Hpre0.
  pose proof (exact_total_nonneg _ Htop) as Htop0.
  assert (Hsplit : exact_total (Volumes.symbol_volumes df)
                   = exact_total (firstn (List.length ranked - 10) ranked)
                     + exact_total (Volumes.top_symbol_volumes ranked)).
  { rewrite <- (exact_total_Permutation _ _ Hperm).
    rewrite (ranked_split ranked) at 1. apply exact_total_app. }
  rewrite (series_sum_exact _ Htop) by lia.
  rewrite (series_sum_exact _ Hnn) by lia.
  split; [lia|]. split; reflexivity.
Qed.

(** Two trades of [2 ^ 62] shares each: their int64 sum wraps. *)
Example volume_wraps :
  Volumes.symbol_volumes
    [mkTrade 1 "A" (2 ^ 62) 1; mkTrade 2 "A" (2 ^ 62) 1]
  = [("A", - 2 ^ 63)].
Proof. reflexivity. Qed.

Lemma volumes_df_fits : sums_fit volumes_df.
Proof.
  split.
  - intros e He. simpl in He.
    repeat (destruct He as [<-|He]; [simpl; lia|]). contradiction.
  - vm_compute. reflexivity.
Defined.

Lemma eleven_df_fits : sums_fit eleven_df.
Proof.
  split.
  - intros e He. simpl in He.
    repeat (destruct He as [<-|He]; [simpl; lia|]). contradiction.
  - vm_compute. reflexivity.
Defined.

Lemma symbol_volumes_partition_sizes_witness :
  exists selection : Spikes,
    select_or_raise (Spikes_of volumes_df) "PINS" = Some selection /\
    30 = size_sum (data selection).
Proof.
  apply (symbol_volumes_partition_sizes volumes_df).
  - exact volumes_df_fits.
  - vm_compute. right. left. reflexivity.
Defined.

Lemma volumes_ranked_is_ranking :
  Volumes.ranking (Volumes.symbol_volumes volumes_df) volumes_ranked.
Proof.
  split.
  - change (Permutation (("SNAP", 5) :: [("CHK", 5); ("PINS", 30)])
              ([("CHK", 5); ("PINS", 30)] ++ ("SNAP", 5) :: [])).
    apply Permutation_cons_app. apply Permutation_refl.
  - unfold volumes_ranked. repeat constructor; simpl; lia.
Defined.

Lemma top_volume_within_total_witness :
  0 <= Volumes.series_sum (Volumes.top_symbol_volumes volumes_ranked)
  <= Volumes.series_sum (Volumes.symbol_volumes volumes_df).
Proof.
  apply (top_volume_within_total volumes_df volumes_ranked).
  - exact volumes_ranked_is_ranking.
  - exact volumes_df_fits.
Defined.

Lemma eleven_ranked_is_ranking :
  Volumes.ranking (Volumes.symbol_volumes eleven_df) eleven_ranked.
Proof.
  split.
  - apply Permutation_sym.
    exact (Permutation_cons_append
             [("B", 1); ("C", 2); ("D", 3); ("E", 4); ("F", 5); ("G", 6);
              ("H", 7); ("I", 8); ("J", 9); ("K", 10)] ("A", 50)).
  - unfold eleven_ranked. repeat constructor; simpl; lia.
Defined.

Lemma top_symbols_dominate_witness :
  size_sum (data (select (Spikes_of eleven_df) "B"))
  <= size_sum (data (select (Spikes_of eleven_df) "A")).
Proof.
  apply (top_symbols_dominate eleven_df eleven_ranked "B" "A").
  - exact eleven_ranked_is_ranking.
  - exact eleven_df_fits.
  - vm_compute. right. left. reflexivity.
  - intros H. vm_compute in H.
    repeat (destruct H as [H|H]; [discriminate H|]). contradiction.
  - vm_compute. repeat (try (left; reflexivity); right).
Defined.

Lemma top_symbols_are_ten_distinct_symbols_witness :
  List.length (Volumes.top_symbols eleven_ranked)
  = Nat.min 10 (List.length (Volumes.symbol_volumes eleven_df)).
Proof.
  apply (top_symbols_are_ten_distinct_symbols eleven_df eleven_ranked).
  exact eleven_ranked_is_ranking.
Defined.
